(** * Training analytics of the PR tracker dashboard

    A shallow embedding of the record-reference helpers of
    [src/services/livingAppsService.ts] and of the analytics code of
    [src/pages/Dashboard.tsx] ([analyzePR], [loadData], [prsByDate],
    [statsData], [getHeatmapIntensity]), with the properties the
    specification states about them.

    Conventions of the embedding:
    - a JavaScript [number] is a rational [Q]: a double is one.  [NaN] and
      the infinities are outside the model.  [===] on numbers is
      [Qeq_bool], [>] is [Qgtb]; comparisons, [Math.max] and [Math.round]
      are exact on doubles.  Where the rounding of [+], [-], [*] and [/]
      matters (the strength gain), it is [fl], the rounding to the nearest
      double; elsewhere the arithmetic is exact, and a theorem that depends
      on a product says when the product is a double;
    - an optional field [f?: T] is an [option T]; [x || 0] is [orZero];
    - a JavaScript string is a [string];
    - a [Record<string, V>] that is only looked up is a [gmap string V]; one
      that is enumerated ([Object.entries], [Object.values]) is an association
      list in insertion order.  The keys are date texts and record ids; for
      a key that names a member of [Object.prototype] see [groupStepJs];
    - [Date] objects are seen through the three observations the code makes
      on them ([getTime], [getFullYear], date-fns [getWeek]); the parser
      [new Date(s)] is a parameter of the development. *)

From Stdlib Require Import ZArith QArith Qround Qminmax String Ascii List Bool Lia Permutation.
From stdpp Require Import gmap strings list.

Import ListNotations.

Local Open Scope string_scope.

(** * The embedding *)

(** ** Reference resolver ([src/services/livingAppsService.ts]) *)

(** One character of the class [[a-f0-9]] under the [i] flag. *)
Definition isHexDigit (c : ascii) : bool :=
  let n := nat_of_ascii c in
  ((48 <=? n) && (n <=? 57) || (97 <=? n) && (n <=? 102) || (65 <=? n) && (n <=? 70))%nat.

Fixpoint allHex (s : string) : bool :=
  match s with
  | EmptyString => true
  | String c s' => isHexDigit c && allHex s'
  end.

(** [url.match(/([a-f0-9]{24})$/i)]: the pattern is anchored at the end of
    the input and has a fixed width, so its only possible match is the last
    24 characters.  [None] is [null]; a [null], [undefined] or empty [url]
    is answered by the first line of the function. *)
Definition extractRecordId (url : option string) : option string :=
  match url with
  | None => None
  | Some u =>
      if (String.length u <? 24)%nat then None
      else
        let m := substring (String.length u - 24) 24 u in
        if allHex m then Some m else None
  end.

Definition createRecordUrl (appId recordId : string) : string :=
  "https://my.living-apps.de/rest/apps/" ++ appId ++ "/records/" ++ recordId.

(** ** Data model ([src/types/app.ts]) *)

(** [PrEintraege['fields']]; every field is optional. *)
Record PrFields := mkPrFields {
  exercise_id : option string;
  date : option string;
  weight_kg : option Q;
  reps : option Q;
  sets : option Q;
  note : option string
}.

(** [createdat] and [updatedat] are never read by the analytics. *)
Record PrEintraege := mkPr {
  pr_record_id : string;
  pr_fields : PrFields
}.

Record UebungenFields := mkUebungenFields {
  name : option string;
  created_at : option string
}.

Record Uebungen := mkUebung {
  record_id : string;
  fields : UebungenFields
}.

(** ** Numbers *)

(** [x || 0] on an optional number: [undefined] and [0] both give [0]. *)
Definition orZero (x : option Q) : Q :=
  match x with Some q => q | None => 0 end.

(** [a > b] *)
Definition Qgtb (a b : Q) : bool := negb (Qle_bool a b).

(** [Math.max(x, ...xs)] on a non-empty argument list. *)
Definition mathMax (x : Q) (xs : list Q) : Q := fold_left Qmax xs x.

(** [Math.round(x)]: the nearest integer, halves upward. *)
Definition mathRound (x : Q) : Q := inject_Z (Qfloor (x + (1 # 2))).

(** ** PR classifier ([analyzePR], [src/pages/Dashboard.tsx]) *)

Module Best.
Record t := mk { weight : Q; reps : Q; volume : Q }.
End Best.

Record PRAnalysis := mkPRAnalysis {
  isWeightPR : bool;
  isRepPR : bool;
  isVolumePR : bool;
  previousBest : Best.t
}.

(** [e.fields.weight_kg || 0] *)
Definition weightOf (e : PrEintraege) : Q := orZero (weight_kg (pr_fields e)).

(** [e.fields.reps || 0] *)
Definition repsOf (e : PrEintraege) : Q := orZero (reps (pr_fields e)).

(** [(e.fields.weight_kg || 0) * (e.fields.reps || 0)], as the exact
    product.  The program has the double nearest to it, which is the product
    itself when that is a double, as for whole repetitions and weights in
    steps of a quarter of a kilogram. *)
Definition volumeOf (e : PrEintraege) : Q := (weightOf e * repsOf e)%Q.

(** [e.fields.weight_kg === newWeight]; an absent weight equals no number. *)
Definition sameWeightAs (newWeight : Q) (e : PrEintraege) : bool :=
  match weight_kg (pr_fields e) with
  | Some w => Qeq_bool w newWeight
  | None => false
  end.

Definition analyzePR (newWeight newReps : Q) (previousEntries : list PrEintraege)
  : PRAnalysis :=
  match previousEntries with
  | [] =>
      {| isWeightPR := true; isRepPR := true; isVolumePR := true;
         previousBest := Best.mk 0 0 0 |}
  | e :: es =>
      let maxWeight := mathMax (weightOf e) (map weightOf es) in
      let maxVolume := mathMax (volumeOf e) (map volumeOf es) in
      let sameWeight := List.filter (sameWeightAs newWeight) previousEntries in
      let maxRepsAtWeight :=
        match sameWeight with
        | [] => 0%Q
        | s :: ss => mathMax (repsOf s) (map repsOf ss)
        end in
      let newVolume := (newWeight * newReps)%Q in
      {| isWeightPR := Qgtb newWeight maxWeight;
         isRepPR := Qgtb newReps maxRepsAtWeight && (0 <? length sameWeight)%nat;
         isVolumePR := Qgtb newVolume maxVolume;
         previousBest := Best.mk maxWeight maxRepsAtWeight maxVolume |}
  end.

(** ** Dates and sorting *)

(** A [Date] object, as far as the dashboard looks at it: [getTime()],
    [getFullYear()] and date-fns' [getWeek(d, { weekStartsOn: 1 })]. *)
Record JsDate := mkDate {
  getTime : Z;
  getFullYear : Z;
  getWeek : Z
}.

(** [Array.prototype.sort(cmp)] is stable; for a comparator that orders the
    elements consistently its result is the one stable ordering, built here
    by insertion.  A comparator result that is [NaN] counts as 0; with such
    results among others the order is the engine's own, and what is proved
    about an order assumes that the dates of the elements parse. *)
Fixpoint insertBy {A : Type} (cmp : A -> A -> Z) (x : A) (l : list A) : list A :=
  match l with
  | [] => [x]
  | y :: l' => if (cmp x y <=? 0)%Z then x :: l else y :: insertBy cmp x l'
  end.

Definition sortBy {A : Type} (cmp : A -> A -> Z) (l : list A) : list A :=
  fold_right (insertBy cmp) [] l.

(** [a - b] inside a comparator: [None] is [NaN], which [sort] reads as 0. *)
Definition minusOrNaN (a b : option Z) : Z :=
  match a, b with
  | Some x, Some y => (x - y)%Z
  | _, _ => 0%Z
  end.

(** ** Aggregation index ([loadData]) *)

Record ExerciseWithPRs := mkExerciseWithPRs {
  exercise : Uebungen;
  prs : list PrEintraege;
  bestKg : option Q;
  bestReps : option Q;
  lastPR : option PrEintraege
}.

(** What [loadData] leaves in the component state. *)
Record Loaded := mkLoaded {
  allPrEntries : list PrEintraege;
  exercises : list ExerciseWithPRs;
  recentPRs : list (PrEintraege * string)
}.

(** [extractRecordId(pr.fields.exercise_id) === ex.record_id] *)
Definition refersTo (ex : Uebungen) (pr : PrEintraege) : bool :=
  match extractRecordId (exercise_id (pr_fields pr)) with
  | Some exId => String.eqb exId (record_id ex)
  | None => false
  end.

(** [name || fallback] on an optional string. *)
Definition orText (x : option string) (fallback : string) : string :=
  match x with
  | Some (String c s) => String c s
  | _ => fallback
  end.

(** ** Calendar bucketer ([prsByDate], [getHeatmapIntensity]) *)

(** [s.split('T')[0]]: the text before the first ['T']. *)
Fixpoint beforeT (s : string) : string :=
  match s with
  | EmptyString => EmptyString
  | String c s' => if Ascii.eqb c "T" then EmptyString else String c (beforeT s')
  end.

(** [pr.fields.date?.split('T')[0]] *)
Definition dateKey (pr : PrEintraege) : option string :=
  beforeT <$> date (pr_fields pr).

(** The body of the [forEach] of [prsByDate]: [if (date)] passes a present,
    non-empty key.  The map holds the properties of [grouped] itself; a key
    that names a property every object inherits is not a calendar date, and
    what the code does with it is [groupStepJs] further down. *)
Definition groupStep (grouped : gmap string (list PrEintraege)) (pr : PrEintraege)
  : gmap string (list PrEintraege) :=
  match dateKey pr with
  | Some (String c s) =>
      let d := String c s in
      <[d := (default [] (grouped !! d) ++ [pr])%list]> grouped
  | _ => grouped
  end.

Definition prsByDate (allPrEntries : list PrEintraege) : gmap string (list PrEintraege) :=
  fold_left groupStep allPrEntries ∅.

Inductive Intensity := none | low | medium | high.

Definition getHeatmapIntensity (byDate : gmap string (list PrEintraege)) (dateStr : string)
  : Intensity :=
  let count := match byDate !! dateStr with Some l => length l | None => 0%nat end in
  if (count =? 0)%nat then none
  else if (count <=? 2)%nat then low
  else if (count <=? 4)%nat then medium
  else high.

(** ** Stats calculator ([statsData]) *)

(** [Boolean(x)] on an optional string: present and non-empty. *)
Definition truthy (x : option string) : bool :=
  match x with
  | Some (String _ _) => true
  | _ => false
  end.

(** [new Set(xs)], in insertion order. *)
Definition setAdd (s : list (option string)) (x : option string) : list (option string) :=
  if bool_decide (x ∈ s) then s else (s ++ [x])%list.

Definition newSet (xs : list (option string)) : list (option string) :=
  fold_left setAdd xs [].

(** [new Set(allPrEntries.map(pr => pr.fields.date?.split('T')[0]).filter(Boolean))] *)
Definition uniqueDates (allPrEntries : list PrEintraege) : list (option string) :=
  newSet (List.filter truthy (map dateKey allPrEntries)).

Definition totalSessions (allPrEntries : list PrEintraege) : nat :=
  length (uniqueDates allPrEntries).

(** [freq[exId] = (freq[exId] || 0) + 1] on an object whose keys are
    enumerated later.  A key of 24 characters is no array index, so the keys
    keep their insertion order. *)
Fixpoint bump (freq : list (string * nat)) (exId : string) : list (string * nat) :=
  match freq with
  | [] => [(exId, 1%nat)]
  | (k, n) :: rest =>
      if String.eqb k exId then (k, S n) :: rest else (k, n) :: bump rest exId
  end.

Definition exerciseFrequency (allPrEntries : list PrEintraege) : list (string * nat) :=
  fold_left
    (fun freq pr =>
       match extractRecordId (exercise_id (pr_fields pr)) with
       | Some (String c s) => bump freq (String c s)
       | _ => freq
       end)
    allPrEntries [].

Definition topExerciseIds (allPrEntries : list PrEintraege) : list string :=
  map fst
    (take 5 (sortBy (fun a b => (Z.of_nat (snd b) - Z.of_nat (snd a))%Z)
                    (exerciseFrequency allPrEntries))).

(** [exercises.filter((ex) => topExerciseIds.includes(ex.record_id))] *)
Definition topExercises (allPrEntries : list PrEintraege) (exs : list ExerciseWithPRs)
  : list ExerciseWithPRs :=
  List.filter
    (fun ex => bool_decide (record_id (exercise ex) ∈ topExerciseIds allPrEntries))
    exs.

(** [if (!groups[exId]) groups[exId] = []; groups[exId].push(pr)] *)
Fixpoint pushTo (groups : list (string * list PrEintraege)) (exId : string) (pr : PrEintraege)
  : list (string * list PrEintraege) :=
  match groups with
  | [] => [(exId, [pr])]
  | (k, l) :: rest =>
      if String.eqb k exId then (k, (l ++ [pr])%list) :: rest
      else (k, l) :: pushTo rest exId pr
  end.

(** The body of the [forEach] that groups the entries: [if (exId)] passes a
    resolved reference. *)
Definition pushEntry (groups : list (string * list PrEintraege)) (pr : PrEintraege)
  : list (string * list PrEintraege) :=
  match extractRecordId (exercise_id (pr_fields pr)) with
  | Some (String c s) => pushTo groups (String c s) pr
  | _ => groups
  end.

Definition entriesByExercise (allPrEntries : list PrEintraege)
  : list (string * list PrEintraege) :=
  fold_left pushEntry allPrEntries [].

(** [weeklyTraining[key] >= 1]; an absent key is [undefined], which is not
    [>= 1]. *)
Definition trained (weekly : gmap (option Z) nat) (key : Z) : bool :=
  match weekly !! Some key with
  | Some n => (1 <=? n)%nat
  | None => false
  end.

(** The [for] loop of the streak, [n] iterations left. *)
Fixpoint streakLoop (n : nat) (weekly : gmap (option Z) nat)
    (checkYear checkWeek : Z) (currentStreak : nat) : nat :=
  match n with
  | O => currentStreak
  | S n' =>
      let key := (checkYear * 100 + checkWeek)%Z in
      if trained weekly key then
        let checkWeek' := (checkWeek - 1)%Z in
        if (checkWeek' <? 1)%Z
        then streakLoop n' weekly (checkYear - 1)%Z 52%Z (S currentStreak)
        else streakLoop n' weekly checkYear checkWeek' (S currentStreak)
      else currentStreak
  end.

Definition currentStreak (weekly : gmap (option Z) nat) (now : JsDate) : nat :=
  let currentWeekNum := getWeek now in
  let currentYear := getFullYear now in
  let currentWeekKey := (currentYear * 100 + currentWeekNum)%Z in
  let hasCurrentWeekTraining := trained weekly currentWeekKey in
  let currentWeekKey :=
    if hasCurrentWeekTraining then currentWeekKey
    else if (currentWeekNum =? 1)%Z then ((currentYear - 1) * 100 + 52)%Z
    else (currentYear * 100 + (currentWeekNum - 1))%Z in
  let checkYear := (currentWeekKey / 100)%Z in
  let checkWeek := Z.rem currentWeekKey 100 in
  streakLoop 52 weekly checkYear checkWeek 0.

Record Stats := mkStats {
  stats_totalSessions : nat;
  stats_strengthGainPercent : Q;
  stats_currentStreak : nat;
  stats_topExercises : list ExerciseWithPRs
}.

(** ** The parts that read dates *)

Section Dashboard.

(** [new Date(s)]; [None] is an Invalid Date, whose observations are [NaN]. *)
Variable newDate : string -> option JsDate.

(** [e.fields.date ? new Date(e.fields.date).getTime() : 0] *)
Definition entryTime (e : PrEintraege) : option Z :=
  match date (pr_fields e) with
  | Some (String c s) => getTime <$> newDate (String c s)
  | _ => Some 0%Z
  end.

Definition byDateDesc (a b : PrEintraege) : Z := minusOrNaN (entryTime b) (entryTime a).
Definition byDateAsc (a b : PrEintraege) : Z := minusOrNaN (entryTime a) (entryTime b).

Definition withPRs (prEintraege : list PrEintraege) (ex : Uebungen) : ExerciseWithPRs :=
  let exercisePRs := sortBy byDateDesc (List.filter (refersTo ex) prEintraege) in
  let bestKg := fold_left (fun max pr => Qmax max (weightOf pr)) exercisePRs 0%Q in
  let bestReps := fold_left (fun max pr => Qmax max (repsOf pr)) exercisePRs 0%Q in
  let lastPR := head exercisePRs in
  {| exercise := ex;
     prs := exercisePRs;
     bestKg := if Qgtb bestKg 0 then Some bestKg else None;
     bestReps := if Qgtb bestReps 0 then Some bestReps else None;
     lastPR := lastPR |}.

(** [setAllPrEntries(prEintraege)] stores the fetched array itself, and the
    later [prEintraege.sort(...)] of the recency feed sorts that same array in
    place: the state's [allPrEntries] is the list in recency order. *)
Definition loadData (uebungen : list Uebungen) (prEintraege : list PrEintraege) : Loaded :=
  let exercisesWithPRs := map (withPRs prEintraege) uebungen in
  let sorted := sortBy byDateDesc prEintraege in
  let recent :=
    map (fun pr =>
           let exId := extractRecordId (exercise_id (pr_fields pr)) in
           let found := List.find (fun ex => bool_decide (Some (record_id ex) = exId)) uebungen in
           (pr, orText (found ≫= fun ex => name (fields ex)) "Unbekannte Übung"))
        (take 10 sorted) in
  {| allPrEntries := sorted; exercises := exercisesWithPRs; recentPRs := recent |}.

(** One group of [Object.values(entriesByExercise).forEach(...)], on the
    accumulators [(totalGainPercent, exercisesWithGain)].  [entries.sort]
    sorts the group in place, so the later [entries.map] runs over the
    sorted list.  The arithmetic is exact here; [gainStep64] further down
    rounds every operation as the doubles of the program do. *)
Definition gainStep (acc : Q * nat) (entries : list PrEintraege) : Q * nat :=
  if (length entries <? 2)%nat then acc
  else
    match sortBy byDateAsc entries with
    | [] => acc
    | first :: rest =>
        let firstWeight := weightOf first in
        let currentBestWeight := mathMax (weightOf first) (map weightOf rest) in
        if Qgtb firstWeight 0 && Qgtb currentBestWeight firstWeight then
          let gainPercent := ((currentBestWeight - firstWeight) / firstWeight * 100)%Q in
          ((fst acc + gainPercent)%Q, S (snd acc))
        else acc
    end.

Definition strengthGainPercent (allPrEntries : list PrEintraege) : Q :=
  let '(totalGainPercent, exercisesWithGain) :=
    fold_left gainStep (map snd (entriesByExercise allPrEntries)) (0%Q, 0%nat) in
  if (0 <? exercisesWithGain)%nat
  then (mathRound (totalGainPercent / inject_Z (Z.of_nat exercisesWithGain) * 10) / 10)%Q
  else 0%Q.

(** [year * 100 + weekNum] of [new Date(dateStr)]; [None] is the [NaN] an
    Invalid Date gives. *)
Definition weekKeyOf (dateStr : string) : option Z :=
  (fun d => (getFullYear d * 100 + getWeek d)%Z) <$> newDate dateStr.

Definition weeklyTraining (dates : list (option string)) : gmap (option Z) nat :=
  fold_left
    (fun weekly dateStr =>
       match dateStr with
       | Some (String c s) =>
           let key := weekKeyOf (String c s) in
           <[key := S (default 0%nat (weekly !! key))]> weekly
       | _ => weekly
       end)
    dates ∅.

(** [statsData], without [sessionsPerWeek] (a display string made by
    [differenceInDays] and [toFixed]).  [now] is the [new Date()] of the
    call and [exs] the [exercises] of the state. *)
Definition statsData (allPrEntries : list PrEintraege) (exs : list ExerciseWithPRs)
    (now : JsDate) : option Stats :=
  match allPrEntries with
  | [] => None
  | _ =>
      Some {| stats_totalSessions := totalSessions allPrEntries;
              stats_strengthGainPercent := strengthGainPercent allPrEntries;
              stats_currentStreak := currentStreak (weeklyTraining (uniqueDates allPrEntries)) now;
              stats_topExercises := topExercises allPrEntries exs |}
  end.

End Dashboard.

(** ** The ranking of the second dashboard ([calculateTopUebungen]) *)

(** The second dashboard of [Dashboard.tsx] ranks the exercises as well;
    [topExercises] is compared with it below. *)
Record TopUebung := mkTopUebung {
  tu_name : string;
  prCount : nat;
  tu_lastPR : option (Q * Q * string)
}.

(** [stats[id] = v] on an object: a new key goes last, an old one keeps its
    place. *)
Fixpoint setKey (stats : list (string * TopUebung)) (id : string) (v : TopUebung)
  : list (string * TopUebung) :=
  match stats with
  | [] => [(id, v)]
  | (k, u) :: rest =>
      if String.eqb k id then (k, v) :: rest else (k, u) :: setKey rest id v
  end.

(** The body of [if (uebungStats[exerciseId]) { ... }] on the record found. *)
Definition countPR (pr : PrEintraege) (u : TopUebung) : TopUebung :=
  let f := pr_fields pr in
  let lastPR' :=
    match date f, weight_kg f, reps f with
    | Some (String c s), Some w, Some r =>
        if negb (Qeq_bool w 0) && negb (Qeq_bool r 0) then
          match tu_lastPR u with
          | Some (_, _, d) =>
              if String.ltb d (String c s) then Some (w, r, String c s) else tu_lastPR u
          | None => Some (w, r, String c s)
          end
        else tu_lastPR u
    | _, _, _ => tu_lastPR u
    end in
  {| tu_name := tu_name u; prCount := S (prCount u); tu_lastPR := lastPR' |}.

Fixpoint countAt (stats : list (string * TopUebung)) (id : string) (pr : PrEintraege)
  : list (string * TopUebung) :=
  match stats with
  | [] => []
  | (k, u) :: rest =>
      if String.eqb k id then (k, countPR pr u) :: rest else (k, u) :: countAt rest id pr
  end.

Definition calculateTopUebungen (uebungenData : list Uebungen) (prEintraegeData : list PrEintraege)
  : list TopUebung :=
  let init :=
    fold_left
      (fun stats uebung =>
         setKey stats (record_id uebung)
           (mkTopUebung (orText (name (fields uebung)) "Unbenannte Übung") 0 None))
      uebungenData [] in
  let counted :=
    fold_left
      (fun stats pr =>
         match extractRecordId (exercise_id (pr_fields pr)) with
         | Some (String c s) => countAt stats (String c s) pr
         | _ => stats
         end)
      prEintraegeData init in
  take 5 (sortBy (fun a b => (Z.of_nat (prCount b) - Z.of_nat (prCount a))%Z)
                 (map snd counted)).

(** ** Notions of the specification *)

(** A prior entry logged at exactly the weight [newWeight]. *)
Definition atWeight (newWeight : Q) (e : PrEintraege) : Prop :=
  exists w, weight_kg (pr_fields e) = Some w /\ (w == newWeight)%Q.

(** [m] is the largest rep count among the entries of [prior] logged at
    [newWeight]: it is reached, and it bounds the others. *)
Definition maxRepsAt (newWeight : Q) (prior : list PrEintraege) (m : Q) : Prop :=
  (exists e, In e prior /\ atWeight newWeight e /\ repsOf e = m)
  /\ forall e, In e prior -> atWeight newWeight e -> (repsOf e <= m)%Q.

(** The step function of the specification: 0, 1-2, 3-4, 5 and more. *)
Definition stepIntensity (count : nat) : Intensity :=
  match count with
  | 0%nat => none
  | 1%nat | 2%nat => low
  | 3%nat | 4%nat => medium
  | _ => high
  end.

(** The entry [pr] is logged on the calendar date [d]: its date field is
    present and its text before the first ['T'] is the non-empty [d]. *)
Definition loggedOn (d : string) (pr : PrEintraege) : Prop :=
  d <> EmptyString /\ dateKey pr = Some d.

#[global] Instance loggedOn_dec (d : string) (pr : PrEintraege) : Decision (loggedOn d pr).
Proof. unfold loggedOn. apply _. Defined.

(** The entries of a list logged on [d], in list order. *)
Definition entriesOn (d : string) (es : list PrEintraege) : list PrEintraege :=
  filter (loggedOn d) es.

(** A week bucket [(year, weekNum)] and its key [year * 100 + weekNum]. *)
Definition bucket (yw : Z * Z) : Z := (fst yw * 100 + snd yw)%Z.

(** The key the walk of the code visits after [(year, weekNum)]: the week
    number before, and week 52 of the year before from week 1 (also after a
    year in which [getWeek] numbers a week 53).  This is the step of the
    code, not the calendar: within a year it is the calendar week before, at
    a turn of the year it need not be. *)
Definition prevWeek (yw : Z * Z) : Z * Z :=
  if (snd yw - 1 <? 1)%Z then ((fst yw - 1)%Z, 52%Z) else (fst yw, (snd yw - 1)%Z).

(** The number of weeks counted by a walk of at most [n] steps from [yw]. *)
Fixpoint countedWeeks (n : nat) (weekly : gmap (option Z) nat) (yw : Z * Z) : nat :=
  match n with
  | O => O
  | S n' =>
      if trained weekly (bucket yw) then S (countedWeeks n' weekly (prevWeek yw)) else O
  end.

(** The reference of [pr] resolves to the id [k]. *)
Definition resolvesTo (k : string) (pr : PrEintraege) : bool :=
  match extractRecordId (exercise_id (pr_fields pr)) with
  | Some exId => String.eqb exId k
  | None => false
  end.

(** [groups[k]] *)
Fixpoint groupOf (k : string) (groups : list (string * list PrEintraege))
  : option (list PrEintraege) :=
  match groups with
  | [] => None
  | (k', g) :: rest => if String.eqb k' k then Some g else groupOf k rest
  end.



Section GainOfAGroup.

Variable newDate : string -> option JsDate.






(** The time an entry is sorted by, for an entry whose date parses (or is
    absent, which counts as time 0). *)
Definition timeOf (e : PrEintraege) : Z := default 0%Z (entryTime newDate e).

End GainOfAGroup.

(** ** A calendar and data for the examples *)

(** An instance of the [new Date] parameter, for the concrete examples
    below: the date-only form [YYYY-MM-DD] of the wire format, read as a host
    in the UTC time zone does.  [getTime] is UTC midnight in milliseconds,
    [getWeek] is date-fns' local week number for [weekStartsOn: 1] (and its
    default [firstWeekContainsDate: 1]: week 1 is the Monday-to-Sunday week
    that holds 1 January).  Every other string is an Invalid Date here; the
    examples use none that an engine would parse. *)
Module Utc.

Definition digit (c : ascii) : option Z :=
  let n := Z.of_nat (nat_of_ascii c) in
  if ((48 <=? n) && (n <=? 57))%Z then Some (n - 48)%Z else None.

Fixpoint number (cs : list ascii) (acc : Z) : option Z :=
  match cs with
  | [] => Some acc
  | c :: cs' => digit c ≫= fun d => number cs' (acc * 10 + d)%Z
  end.

Definition isLeap (y : Z) : bool :=
  ((y mod 4 =? 0) && negb (y mod 100 =? 0) || (y mod 400 =? 0))%Z.

Definition daysInMonth (y m : Z) : Z :=
  if (m =? 2)%Z then (if isLeap y then 29 else 28)%Z
  else if ((m =? 4) || (m =? 6) || (m =? 9) || (m =? 11))%Z then 30%Z
  else 31%Z.

(** Days from 1970-01-01 to the civil date [y]-[m]-[d]. *)
Definition daysFromCivil (y m d : Z) : Z :=
  let y' := (if m <=? 2 then y - 1 else y)%Z in
  let era := (y' / 400)%Z in
  let yoe := (y' - era * 400)%Z in
  let mp := (if m <=? 2 then m + 9 else m - 3)%Z in
  let doy := ((153 * mp + 2) / 5 + d - 1)%Z in
  let doe := (yoe * 365 + yoe / 4 - yoe / 100 + doy)%Z in
  (era * 146097 + doe - 719468)%Z.

(** The Monday on or before a day (1970-01-01 was a Thursday). *)
Definition startOfWeek (day : Z) : Z := (day - (day + 3) mod 7)%Z.

Definition weekYear (y day : Z) : Z :=
  if (startOfWeek (daysFromCivil (y + 1) 1 1) <=? day)%Z then (y + 1)%Z
  else if (startOfWeek (daysFromCivil y 1 1) <=? day)%Z then y
  else (y - 1)%Z.

Definition week (y day : Z) : Z :=
  ((startOfWeek day - startOfWeek (daysFromCivil (weekYear y day) 1 1)) / 7 + 1)%Z.

Definition newDate (s : string) : option JsDate :=
  match list_ascii_of_string s with
  | [y1; y2; y3; y4; h1; m1; m2; h2; d1; d2] =>
      if Ascii.eqb h1 "-" && Ascii.eqb h2 "-" then
        number [y1; y2; y3; y4] 0%Z ≫= fun y =>
        number [m1; m2] 0%Z ≫= fun m =>
        number [d1; d2] 0%Z ≫= fun d =>
        if ((1 <=? m) && (m <=? 12) && (1 <=? d) && (d <=? daysInMonth y m))%Z then
          let day := daysFromCivil y m d in
          Some {| getTime := (day * 86400000)%Z; getFullYear := y; getWeek := week y day |}
        else None
      else None
  | _ => None
  end.

End Utc.

Definition idBench : string := "694d77f4b641f5b879e4e810".
Definition idSquat : string := "694d77f4b641f5b879e4e811".

Definition exBench : Uebungen := mkUebung idBench (mkUebungenFields (Some "Bankdruecken") None).
Definition exSquat : Uebungen := mkUebung idSquat (mkUebungenFields (Some "Kniebeuge") None).

(** An entry as the form submits it: the reference made by [createRecordUrl]. *)
Definition logged (rid exId day : string) (w r : Q) : PrEintraege :=
  mkPr rid (mkPrFields (Some (createRecordUrl "694d77f2ef696e8bff21287d" exId))
                       (Some day) (Some w) (Some r) (Some 1%Q) None).

(** A bench-press entry of 1 January 2025. *)
Definition bench (w r : Q) : PrEintraege :=
  mkPr "r" (mkPrFields (Some "https://my.living-apps.de/rest/apps/694d77f2ef696e8bff21287d/records/694d77f4b641f5b879e4e810")
                       (Some "2025-01-01") (Some w) (Some r) (Some 1%Q) None).

(** Wednesdays of four weeks in a row up to 19 March 2025, none the week
    before, and an older one. *)
Definition fourWeeks : list PrEintraege :=
  [logged "p1" idBench "2025-02-12" 90 5;
   logged "p2" idBench "2025-02-26" 95 5;
   logged "p3" idSquat "2025-03-05" 120 5;
   logged "p4" idBench "2025-03-12" 100 5;
   logged "p5" idBench "2025-03-19" 100 6;
   logged "p6" idSquat "2025-03-19" 125 5].

Definition wednesday_2025_03_19 : JsDate := mkDate 1742342400000 2025 12.


(** * More of the dashboards *)

(** The rest of the code that computes: the badges of a submitted entry,
    the day detail and chart of the first dashboard, the calendar grid, the
    feed of the third dashboard and the steppers of the entry form. *)

From Stdlib Require Import Sorted DecimalString DecimalPos Qabs PrimFloat FloatOps SpecFloat.

(** ** Badges of a submitted entry ([handleSubmitPR]) *)

(** The [prTypes] that [handleSubmitPR] collects from the analysis, in the
    order it pushes them. *)
Definition prTypes (a : PRAnalysis) : list string :=
  ((if isWeightPR a then ["Gewichts-PR"] else [])
   ++ (if isVolumePR a then ["Volumen-PR"] else [])
   ++ (if isRepPR a then ["Rep-PR"] else []))%list.

(** ** Day detail of the calendar ([prsForSelectedDate], [hasPRs]) *)

(** [prsForSelectedDate]; the selected day is given by its text
    [format(selectedDate, 'yyyy-MM-dd')], [None] when no day is selected. *)
Definition prsForSelectedDate (byDate : gmap string (list PrEintraege))
    (exs : list ExerciseWithPRs) (selectedDate : option string) : list (PrEintraege * string) :=
  match selectedDate with
  | None => []
  | Some dateStr =>
      map (fun pr =>
             let exId := extractRecordId (exercise_id (pr_fields pr)) in
             let found :=
               List.find (fun ex => bool_decide (Some (record_id (exercise ex)) = exId)) exs in
             (pr, orText (found ≫= fun ex => name (fields (exercise ex))) "Unbekannt"))
          (default [] (byDate !! dateStr))
  end.

(** [(prsByDate[dateStr]?.length || 0) > 0], which enables the day's button. *)
Definition hasPRs (byDate : gmap string (list PrEintraege)) (dateStr : string) : bool :=
  (0 <? match byDate !! dateStr with Some l => length l | None => 0 end)%nat.

(** The intensities in their order. *)
Definition intensityRank (i : Intensity) : nat :=
  match i with none => 0 | low => 1 | medium => 2 | high => 3 end.

(** ** Notions for the ranking of the second dashboard *)

(** The row the ranking should hold for an exercise: its name, or the
    fallback, and the number of entries whose reference resolves to it. *)
Definition rowOf (es : list PrEintraege) (u : Uebungen) : string * nat :=
  (orText (name (fields u)) "Unbenannte Übung",
   length (List.filter (resolvesTo (record_id u)) es)).

(** Descending by count, the comparator of both rankings. *)
Definition byCountDesc (a b : string * nat) : Z := (Z.of_nat (snd b) - Z.of_nat (snd a))%Z.

(** A stats row seen as key, name and count. *)
Definition statRow (kt : string * TopUebung) : string * (string * nat) :=
  (fst kt, (tu_name (snd kt), prCount (snd kt))).

(** ** Feedback after a submit ([handleSubmitPR]) *)

(** [l.join(sep)] *)
Fixpoint join (sep : string) (l : list string) : string :=
  match l with
  | [] => ""
  | [x] => x
  | x :: rest => x ++ sep ++ join sep rest
  end.

(** What [handleSubmitPR] shows once the entry is created: whether the
    confetti starts, and the text of the toast.  [prAnalysis] is [null] when
    the form names no known exercise. *)
Definition submitFeedback (prAnalysis : option PRAnalysis) : bool * string :=
  match prAnalysis with
  | Some a =>
      if (0 <? length (prTypes a))%nat
      then (true, "Neuer " ++ join " + " (prTypes a) ++ "! 🎉")
      else (false, "Eingetragen!")
  | None => (false, "Eingetragen!")
  end.

(** ** Calendar grid ([StatsView]) *)

(** The loop that pads the days of the calendar to full weeks.  A [Date] is
    its time value; [fuel] bounds the iterations of the [while]. *)
Fixpoint padToWeeks (fuel : nat) (days : list Z) : list Z :=
  match fuel with
  | O => days
  | S fuel' =>
      if (length days mod 7 =? 0)%nat then days
      else
        match last days with
        | Some t => padToWeeks fuel' (days ++ [(t + 86400000)%Z])
        | None => days
        end
  end.

(** ** Feed of the third dashboard ([PRsFeedView]) *)

(** [allPRs]: each row is the entry with [exerciseName] and [exerciseId]. *)
Definition allPRs (exs : list ExerciseWithPRs) : list (PrEintraege * string * string) :=
  flat_map
    (fun ex =>
       map (fun pr =>
              (pr, orText (name (fields (exercise ex))) "Unbekannt", record_id (exercise ex)))
           (prs ex))
    exs.

(** The reference of an entry resolves to one of the exercises. *)
Definition resolvesToAny (uebungen : list Uebungen) (pr : PrEintraege) : bool :=
  existsb (fun u => refersTo u pr) uebungen.

(** ** Chart of one exercise ([ExerciseDetailView]) *)

Module ChartPoint.
Record t := mk {
  date : string;
  fullDate : option string;
  weight : Q;
  reps : Q;
  volume : Q
}.
End ChartPoint.

Section Chart.

Variable newDate : string -> option JsDate.

(** [format(d, 'dd.MM', { locale: de })] of date-fns, on the result of
    [new Date]; [None] when it throws. *)
Variable format : option JsDate -> option string.

Definition chartPoint (pr : PrEintraege) : option ChartPoint.t :=
  match date (pr_fields pr) with
  | Some (String c s) =>
      label ← format (newDate (String c s));
      Some (ChartPoint.mk label (date (pr_fields pr)) (weightOf pr) (repsOf pr)
              (weightOf pr * repsOf pr)%Q)
  | _ =>
      Some (ChartPoint.mk "" (date (pr_fields pr)) (weightOf pr) (repsOf pr)
              (weightOf pr * repsOf pr)%Q)
  end.

(** [prs.slice().reverse().map(...)]; the first point that throws ends it. *)
Definition chartData (prs : list PrEintraege) : option (list ChartPoint.t) :=
  mapM chartPoint (rev prs).

End Chart.

(** ** Search ([filteredExercises]) *)

(** [s.includes(sub)] *)
Fixpoint includes (s sub : string) : bool :=
  String.prefix sub s
  || match s with
     | String _ s' => includes s' sub
     | EmptyString => false
     end.

Section Search.

Variable toLowerCase : string -> string.

(** [ex.fields.name?.toLowerCase().includes(searchQuery.toLowerCase())];
    [undefined], of an exercise without name, is falsy. *)
Definition matchesQuery (searchQuery : string) (ex : ExerciseWithPRs) : bool :=
  match name (fields (exercise ex)) with
  | Some n => includes (toLowerCase n) (toLowerCase searchQuery)
  | None => false
  end.

Definition filteredExercises (exs : list ExerciseWithPRs) (searchQuery : string)
  : list ExerciseWithPRs :=
  List.filter (matchesQuery searchQuery) exs.

End Search.

(** A lower-casing of the letters A to Z, for the examples. *)
Definition lowerChar (c : ascii) : ascii :=
  let n := nat_of_ascii c in
  if ((65 <=? n) && (n <=? 90))%nat then ascii_of_nat (n + 32) else c.

Fixpoint lowerAscii (s : string) : string :=
  match s with
  | EmptyString => EmptyString
  | String c s' => String (lowerChar c) (lowerAscii s')
  end.

(** ** Steppers of the form ([incrementValue], [decrementValue]) *)

(** A number that is an integer, or [NaN]: [option Z] with [None] for [NaN].
    The integers are exact; a [number] is, up to 2^53. *)

(** White space that [parseInt] skips, among the characters below 128. *)
Definition isWhiteSpace (c : ascii) : bool :=
  let n := nat_of_ascii c in
  (((9 <=? n) && (n <=? 13)) || (n =? 32))%nat.

Fixpoint trimStart (s : string) : string :=
  match s with
  | String c s' => if isWhiteSpace c then trimStart s' else s
  | EmptyString => EmptyString
  end.

(** The value of a digit of the radix; [None] for any other character. *)
Definition digitValue (radix : Z) (c : ascii) : option Z :=
  let n := Z.of_nat (nat_of_ascii c) in
  let v :=
    if ((48 <=? n) && (n <=? 57))%Z then Some (n - 48)%Z
    else if ((97 <=? n) && (n <=? 122))%Z then Some (n - 87)%Z
    else if ((65 <=? n) && (n <=? 90))%Z then Some (n - 55)%Z
    else None in
  match v with
  | Some d => if (d <? radix)%Z then Some d else None
  | None => None
  end.

(** The value of the longest prefix of digits, after [acc]. *)
Fixpoint digitsValue (radix : Z) (s : string) (acc : Z) : Z :=
  match s with
  | String c s' =>
      match digitValue radix c with
      | Some d => digitsValue radix s' (acc * radix + d)%Z
      | None => acc
      end
  | EmptyString => acc
  end.

(** [parseInt(s)] without a radix: leading white space, a sign, [0x] for
    radix 16, then the longest prefix of digits; [NaN] without a digit. *)
Definition parseInt (s : string) : option Z :=
  let s1 := trimStart s in
  let '(sign, s2) :=
    match s1 with
    | String "-" r => ((-1)%Z, r)
    | String "+" r => (1%Z, r)
    | _ => (1%Z, s1)
    end in
  let '(radix, s3) :=
    match s2 with
    | String "0" (String "x" r) => (16%Z, r)
    | String "0" (String "X" r) => (16%Z, r)
    | _ => (10%Z, s2)
    end in
  match s3 with
  | String c _ =>
      match digitValue radix c with
      | Some _ => Some (sign * digitsValue radix s3 0)%Z
      | None => None
      end
  | EmptyString => None
  end.

(** [String(x)] of an integer or [NaN]. *)
Definition numberToString (x : option Z) : string :=
  match x with
  | Some n => NilZero.string_of_int (Z.to_int n)
  | None => "NaN"
  end.

(** [s || fallback] on a string. *)
Definition orString (s fallback : string) : string :=
  match s with
  | EmptyString => fallback
  | _ => s
  end.

(** The new text of the field, from its text [value]. *)
Definition incrementValue (value : string) : string :=
  numberToString ((fun n => Z.max 1 (n + 1)) <$> parseInt (orString value "0")).

Definition decrementValue (value : string) : string :=
  numberToString ((fun n => Z.max 1 (n - 1)) <$> parseInt (orString value "0")).

(** ** Double precision *)

(** The numbers of the program are IEEE 754 doubles.  A double is a
    rational, and comparisons, [Math.max] and [Math.round] are exact on
    doubles, so on doubles they are what they are on [Q].  The operations
    [+], [-], [*] and [/] round their exact result to the nearest double,
    ties to even: [fl] is that rounding, for results that are 0 or in the
    range of the normal doubles (overflow to [Infinity] and results below
    2^-1022 are outside the model). *)

Definition pow2 (e : Z) : Q := Qpower 2 e.

(** The exponent [e] with [2^52 <= |x| / 2^e < 2^53], for [x] other than 0. *)
Definition ulpExponent (x : Q) : Z :=
  let e0 := (Z.log2 (Z.abs (Qnum x)) - Z.log2 (Z.pos (Qden x)) - 52)%Z in
  if Qle_bool (pow2 (e0 + 52)) (Qabs x) then e0 else (e0 - 1)%Z.

(** The nearest integer, a half going to the even one. *)
Definition roundHalfEven (x : Q) : Z :=
  let f := Qfloor x in
  match Qcompare (x - inject_Z f) (1 # 2) with
  | Lt => f
  | Gt => (f + 1)%Z
  | Eq => if Z.even f then f else (f + 1)%Z
  end.

Definition fl (x : Q) : Q :=
  let x := Qred x in
  if Qeq_bool x 0 then 0%Q
  else
    let e := ulpExponent x in
    Qred (inject_Z (roundHalfEven (x / pow2 e)) * pow2 e).


(** The value of a primitive binary64 float of Rocq, to compare [fl] with. *)
Definition doubleValue (f : float) : option Q :=
  match Prim2SF f with
  | S754_zero _ => Some 0%Q
  | S754_finite s m e =>
      Some (Qred ((if s then -1 else 1) * inject_Z (Z.pos m) * pow2 e))
  | _ => None
  end.

(** ** Strength gain in double precision ([statsData]) *)

Section DoubleGain.

Variable newDate : string -> option JsDate.

(** [gainStep] with the rounding of each operation. *)
Definition gainStep64 (acc : Q * nat) (entries : list PrEintraege) : Q * nat :=
  if (length entries <? 2)%nat then acc
  else
    match sortBy (byDateAsc newDate) entries with
    | [] => acc
    | first :: rest =>
        let firstWeight := weightOf first in
        let currentBestWeight := mathMax (weightOf first) (map weightOf rest) in
        if Qgtb firstWeight 0 && Qgtb currentBestWeight firstWeight then
          let gainPercent :=
            fl (fl (fl (currentBestWeight - firstWeight) / firstWeight) * 100) in
          (fl (fst acc + gainPercent), S (snd acc))
        else acc
    end.

(** [strengthGainPercent] with the rounding of each operation:
    [Math.round(totalGainPercent / exercisesWithGain * 10) / 10]. *)
Definition strengthGainPercent64 (allPrEntries : list PrEintraege) : Q :=
  let '(totalGainPercent, exercisesWithGain) :=
    fold_left gainStep64 (map snd (entriesByExercise allPrEntries)) (0%Q, 0%nat) in
  if (0 <? exercisesWithGain)%nat
  then fl (mathRound (fl (fl (totalGainPercent / inject_Z (Z.of_nat exercisesWithGain)) * 10))
           / 10)
  else 0%Q.






End DoubleGain.

(** ** Calendar grouping on a plain object ([prsByDate]) *)

(** The names every object inherits from [Object.prototype].  Under such a
    name [grouped[date]] is not [undefined] on the empty object. *)
Definition inheritedName (k : string) : bool :=
  bool_decide (k ∈ ["constructor"; "__defineGetter__"; "__defineSetter__";
                    "hasOwnProperty"; "__lookupGetter__"; "__lookupSetter__";
                    "isPrototypeOf"; "propertyIsEnumerable"; "toString"; "valueOf";
                    "__proto__"; "toLocaleString"]).

(** The body of the [forEach] of [prsByDate] on the object [grouped], own
    properties in the map.  Under an inherited name [!grouped[date]] is
    false, no array is stored, and [grouped[date].push] is not a function:
    [None] is the [TypeError]. *)
Definition groupStepJs (grouped : gmap string (list PrEintraege)) (pr : PrEintraege)
  : option (gmap string (list PrEintraege)) :=
  match dateKey pr with
  | Some (String c s) =>
      let d := String c s in
      match grouped !! d with
      | Some l => Some (<[d := (l ++ [pr])%list]> grouped)
      | None => if inheritedName d then None else Some (<[d := [pr]]> grouped)
      end
  | _ => Some grouped
  end.

Definition prsByDateJs (allPrEntries : list PrEintraege)
  : option (gmap string (list PrEintraege)) :=
  fold_left (fun acc pr => acc ≫= fun grouped => groupStepJs grouped pr) allPrEntries (Some ∅).

(** [d] is the text of [s] before its first ['T']: all of [s] when it has
    none. *)
Definition textBeforeT (s d : string) : Prop :=
  (forall c, In c (list_ascii_of_string d) -> c <> "T"%char)
  /\ (s = d \/ exists rest, s = d ++ String "T" rest).

(** * Properties *)

(** ** Strings *)

Module Str.

Lemma substring_0_length (s : string) : substring 0 (String.length s) s = s.
Proof. induction s as [|c s IH]; simpl; [reflexivity | now rewrite IH]. Qed.

Lemma substring_skip (p r : string) (n : nat) :
  substring (String.length p) n (p ++ r) = substring 0 n r.
Proof. induction p as [|c p IH]; simpl; [reflexivity | exact IH]. Qed.

Lemma length_app (p r : string) :
  String.length (p ++ r) = (String.length p + String.length r)%nat.
Proof. induction p as [|c p IH]; simpl; [reflexivity | now rewrite IH]. Qed.

Lemma app_assoc (a b c : string) : (a ++ b) ++ c = a ++ (b ++ c).
Proof.
  induction a as [|x a IH]; [reflexivity |].
  change (String x ((a ++ b) ++ c) = String x (a ++ (b ++ c))). now rewrite IH.
Qed.

(** The last [String.length r] characters of [p ++ r] are [r]. *)
Lemma substring_suffix (p r : string) :
  substring (String.length (p ++ r) - String.length r) (String.length r) (p ++ r) = r.
Proof.
  rewrite length_app.
  replace (String.length p + String.length r - String.length r)%nat
    with (String.length p) by lia.
  rewrite substring_skip. apply substring_0_length.
Qed.

End Str.

(** ** Reference resolver *)

Example extractRecordId_url :
  extractRecordId (Some "https://my.living-apps.de/rest/apps/694d77f2ef696e8bff21287d/records/694D77f4b641f5b879e4e810")
  = Some "694D77f4b641f5b879e4e810".
Proof. reflexivity. Qed.

Example extractRecordId_garbled :
  extractRecordId (Some "https://my.living-apps.de/rest/apps/x/records/694d77f4b641f5b879e4e81g") = None
  /\ extractRecordId (Some "") = None /\ extractRecordId (Some "abc") = None.
Proof. repeat split; reflexivity. Qed.

Lemma substring_nonempty (s : string) :
  forall n m, (n < String.length s)%nat -> substring n (S m) s <> EmptyString.
Proof.
  induction s as [|c s IH]; intros n m Hn; [cbn in Hn; lia|].
  destruct n as [|n]; cbn; [discriminate|]. apply IH. cbn in Hn. lia.
Qed.

Lemma extractRecordId_nonempty (url : option string) (k : string) :
  extractRecordId url = Some k -> k <> EmptyString.
Proof.
  unfold extractRecordId. destruct url as [u|]; [|discriminate].
  destruct (String.length u <? 24)%nat eqn:L; [discriminate|].
  apply Nat.ltb_ge in L. cbv zeta.
  destruct (allHex (substring (String.length u - 24) 24 u)); [|discriminate].
  intros [= <-]. apply substring_nonempty. lia.
Qed.

(** C9. Round trip of the reference format: for every [appId] and every
    [recordId] made of exactly 24 hexadecimal characters,
    [extractRecordId (createRecordUrl appId recordId)] is that [recordId]. *)
Theorem extractRecordId_createRecordUrl (appId recordId : string) :
  String.length recordId = 24%nat ->
  allHex recordId = true ->
  extractRecordId (Some (createRecordUrl appId recordId)) = Some recordId.
Proof.
  intros Hlen Hhex. unfold extractRecordId, createRecordUrl.
  set (p := "https://my.living-apps.de/rest/apps/" ++ appId ++ "/records/").
  replace ("https://my.living-apps.de/rest/apps/" ++ appId ++ "/records/" ++ recordId)
    with (p ++ recordId).
  2:{ subst p. now rewrite !Str.app_assoc. }
  assert (Hl : String.length (p ++ recordId) = (String.length p + 24)%nat)
    by (rewrite Str.length_app, Hlen; reflexivity).
  destruct (String.length (p ++ recordId) <? 24)%nat eqn:E.
  { apply Nat.ltb_lt in E. rewrite Hl in E.
    lia. }
  pose proof (Str.substring_suffix p recordId) as Hs. rewrite Hlen in Hs.
  rewrite Hs, Hhex. reflexivity.
Qed.

Lemma extractRecordId_createRecordUrl_witness :
  extractRecordId (Some (createRecordUrl "694d77f2ef696e8bff21287d" "0123456789abcdefABCDEF01"))
  = Some "0123456789abcdefABCDEF01".
Proof.
  apply (extractRecordId_createRecordUrl "694d77f2ef696e8bff21287d" "0123456789abcdefABCDEF01");
    reflexivity.
Defined.

(** ** Numbers *)

Lemma Qgtb_true (a b : Q) : Qgtb a b = true <-> (b < a)%Q.
Proof.
  unfold Qgtb. rewrite negb_true_iff. split.
  - intros H. apply Qnot_le_lt. intros Hle. apply Qle_bool_iff in Hle. congruence.
  - intros H. destruct (Qle_bool a b) eqn:E; [|reflexivity].
    apply Qle_bool_iff in E. exfalso. exact (Qlt_not_le _ _ H E).
Qed.

Lemma Qgtb_false (a b : Q) : Qgtb a b = false <-> (a <= b)%Q.
Proof.
  unfold Qgtb. rewrite negb_false_iff. apply Qle_bool_iff.
Qed.

Lemma Qmax_cases (a b : Q) : Qmax a b = a \/ Qmax a b = b.
Proof.
  unfold Qmax, GenericMinMax.gmax. destruct (a ?= b)%Q; auto.
Qed.

Lemma mathMax_In (xs : list Q) : forall x, In (mathMax x xs) (x :: xs).
Proof.
  unfold mathMax. induction xs as [|y ys IH]; intros x; simpl.
  - now left.
  - destruct (IH (Qmax x y)) as [H | H]; [| right; right; exact H].
    rewrite <- H. destruct (Qmax_cases x y) as [E | E]; rewrite E; auto.
Qed.

Lemma mathMax_ge_init (xs : list Q) : forall x, (x <= mathMax x xs)%Q.
Proof.
  unfold mathMax. induction xs as [|y ys IH]; intros x; simpl.
  - apply Qle_refl.
  - eapply Qle_trans; [apply (Q.le_max_l x y) | apply IH].
Qed.

Lemma mathMax_upper (xs : list Q) : forall x y, In y (x :: xs) -> (y <= mathMax x xs)%Q.
Proof.
  induction xs as [|z zs IH]; intros x y [E | H].
  - subst. apply Qle_refl.
  - destruct H.
  - subst. apply mathMax_ge_init.
  - change (mathMax x (z :: zs)) with (mathMax (Qmax x z) zs).
    destruct H as [E | H].
    + subst. eapply Qle_trans; [apply (Q.le_max_r x y) | apply mathMax_ge_init].
    + apply IH. now right.
Qed.


Lemma mathRound_comp (x y : Q) : (x == y)%Q -> mathRound x = mathRound y.
Proof. intros H. unfold mathRound. now rewrite H. Qed.


(** ** PR classifier *)

Lemma sameWeightAs_atWeight (newWeight : Q) (e : PrEintraege) :
  sameWeightAs newWeight e = true <-> atWeight newWeight e.
Proof.
  unfold sameWeightAs, atWeight. destruct (weight_kg (pr_fields e)) as [w|].
  - rewrite Qeq_bool_iff. split; [intros H; exists w; auto | intros (w' & E & H); congruence].
  - split; [discriminate | intros (w' & E & _); discriminate].
Qed.

Lemma In_sameWeight (newWeight : Q) (prior : list PrEintraege) (e : PrEintraege) :
  In e (List.filter (sameWeightAs newWeight) prior) <-> In e prior /\ atWeight newWeight e.
Proof. rewrite filter_In, sameWeightAs_atWeight. reflexivity. Qed.

(** The two scenarios of the specification: 105 kg after 100 kg, and 6
    repetitions after 5 at 100 kg. *)
Example analyzePR_heavier :
  analyzePR 105 5 [bench 100 5] = mkPRAnalysis true false true (Best.mk 100 0 (100 * 5)).
Proof. reflexivity. Qed.

Example analyzePR_more_reps :
  analyzePR 100 6 [bench 100 5] = mkPRAnalysis false true true (Best.mk 100 5 (100 * 5)).
Proof. reflexivity. Qed.

(** C7. With an empty history every flag is set and the previous best is
    all zeros, whatever the new weight and repetitions. *)
Theorem analyzePR_empty (newWeight newReps : Q) :
  analyzePR newWeight newReps [] =
    {| isWeightPR := true; isRepPR := true; isVolumePR := true;
       previousBest := Best.mk 0 0 0 |}.
Proof. reflexivity. Qed.

(** What [analyzePR] reports as [previousBest.reps] and [isRepPR] on a
    non-empty history, in terms of the weight-matched entries. *)
Lemma analyzePR_reps_nonempty (newWeight newReps : Q) (prior : list PrEintraege) :
  prior <> [] ->
  let r := analyzePR newWeight newReps prior in
  match List.filter (sameWeightAs newWeight) prior with
  | [] => Best.reps (previousBest r) = 0%Q /\ isRepPR r = false
  | s :: ss =>
      Best.reps (previousBest r) = mathMax (repsOf s) (map repsOf ss)
      /\ isRepPR r = Qgtb newReps (mathMax (repsOf s) (map repsOf ss))
  end.
Proof.
  intros Hne. destruct prior as [|e es]; [congruence|].
  unfold analyzePR. cbv zeta.
  destruct (List.filter (sameWeightAs newWeight) (e :: es)) as [|s ss]; cbn.
  - split; [reflexivity | apply andb_false_r].
  - split; [reflexivity | apply andb_true_r].
Qed.

Lemma maxRepsAt_mathMax (newWeight : Q) (prior : list PrEintraege) s ss :
  List.filter (sameWeightAs newWeight) prior = s :: ss ->
  maxRepsAt newWeight prior (mathMax (repsOf s) (map repsOf ss)).
Proof.
  intros Hf. split.
  - pose proof (mathMax_In (map repsOf ss) (repsOf s)) as Hin.
    change (repsOf s :: map repsOf ss) with (map repsOf (s :: ss)) in Hin.
    apply in_map_iff in Hin. destruct Hin as (e & He & Hin).
    rewrite <- Hf in Hin. apply In_sameWeight in Hin. destruct Hin as [Hp Hw].
    exists e. auto.
  - intros e Hp Hw. apply mathMax_upper.
    change (repsOf s :: map repsOf ss) with (map repsOf (s :: ss)).
    apply in_map. rewrite <- Hf. apply In_sameWeight. auto.
Qed.

Lemma maxRepsAt_unique (newWeight : Q) (prior : list PrEintraege) (m m' : Q) :
  maxRepsAt newWeight prior m -> maxRepsAt newWeight prior m' -> (m == m')%Q.
Proof.
  intros [(e & He & Hw & Hm) Hub] [(e' & He' & Hw' & Hm') Hub'].
  apply Qle_antisym.
  - rewrite <- Hm. apply Hub'; assumption.
  - rewrite <- Hm'. apply Hub; assumption.
Qed.

(** C1. On a non-empty history, [isRepPR] holds exactly when some prior
    entry was logged at exactly [newWeight] and [newReps] exceeds the largest
    rep count among those entries; without such an entry [isRepPR] is false
    whatever [newReps] is, and [previousBest.reps] is that largest rep count,
    or 0 when no prior entry is at [newWeight]. *)
Theorem analyzePR_isRepPR (newWeight newReps : Q) (prior : list PrEintraege) :
  prior <> [] ->
  let r := analyzePR newWeight newReps prior in
  (isRepPR r = true <->
     exists m, maxRepsAt newWeight prior m /\ (m < newReps)%Q)
  /\ ((forall e, In e prior -> ~ atWeight newWeight e) ->
        isRepPR r = false /\ Best.reps (previousBest r) = 0%Q)
  /\ ((exists e, In e prior /\ atWeight newWeight e) ->
        maxRepsAt newWeight prior (Best.reps (previousBest r))).
Proof.
  intros Hne r. pose proof (analyzePR_reps_nonempty newWeight newReps prior Hne) as H.
  fold r in H. cbv zeta in H.
  destruct (List.filter (sameWeightAs newWeight) prior) as [|s ss] eqn:Hf.
  - destruct H as [Hb Hr]. split; [|split].
    + rewrite Hr. split; [discriminate|].
      intros (m & [(e & He & Hw & _) _] & _).
      assert (Hin : In e (List.filter (sameWeightAs newWeight) prior))
        by (apply In_sameWeight; auto).
      rewrite Hf in Hin. destruct Hin.
    + auto.
    + intros (e & He & Hw).
      assert (Hin : In e (List.filter (sameWeightAs newWeight) prior))
        by (apply In_sameWeight; auto).
      rewrite Hf in Hin. destruct Hin.
  - destruct H as [Hb Hr]. pose proof (maxRepsAt_mathMax newWeight prior s ss Hf) as Hmax.
    split; [|split].
    + rewrite Hr, Qgtb_true. split.
      * intros Hlt. eexists; split; [exact Hmax | exact Hlt].
      * intros (m & Hm & Hlt).
        rewrite (maxRepsAt_unique _ _ _ _ Hmax Hm). exact Hlt.
    + intros Hnone. exfalso. apply (Hnone s).
      * apply (In_sameWeight newWeight). rewrite Hf. now left.
      * apply (In_sameWeight newWeight prior). rewrite Hf. now left.
    + intros _. rewrite Hb. exact Hmax.
Qed.

Lemma analyzePR_isRepPR_witness :
  let prior := [bench 100 5; bench 100 8; bench 110 12] in
  let r := analyzePR 100 9 prior in
  (isRepPR r = true <-> exists m, maxRepsAt 100 prior m /\ (m < 9)%Q)
  /\ ((forall e, In e prior -> ~ atWeight 100 e) ->
        isRepPR r = false /\ Best.reps (previousBest r) = 0%Q)
  /\ ((exists e, In e prior /\ atWeight 100 e) ->
        maxRepsAt 100 prior (Best.reps (previousBest r))).
Proof.
  apply (analyzePR_isRepPR 100 9 [bench 100 5; bench 100 8; bench 110 12]).
  discriminate.
Defined.

(** C10. On a non-empty history a weight PR is never also a rep PR: a
    weight above every prior weight equals none of them, so no prior entry is
    weight-matched. *)
Theorem analyzePR_weightPR_not_repPR (newWeight newReps : Q) (prior : list PrEintraege) :
  prior <> [] ->
  isWeightPR (analyzePR newWeight newReps prior) = true ->
  isRepPR (analyzePR newWeight newReps prior) = false.
Proof.
  intros Hne Hw.
  destruct (isRepPR (analyzePR newWeight newReps prior)) eqn:Hr; [exfalso | reflexivity].
  pose proof (analyzePR_reps_nonempty newWeight newReps prior Hne) as H. cbv zeta in H.
  destruct (List.filter (sameWeightAs newWeight) prior) as [|e ss] eqn:Hf;
    [destruct H; congruence | clear H].
  assert (Hin : In e prior /\ atWeight newWeight e)
    by (apply In_sameWeight; rewrite Hf; now left).
  destruct Hin as (He & w & Ew & Hwe).
  destruct prior as [|p ps]; [congruence|].
  cbn in Hw. apply Qgtb_true in Hw.
  assert (Hle : (weightOf e <= mathMax (weightOf p) (map weightOf ps))%Q).
  { apply mathMax_upper. change (weightOf p :: map weightOf ps) with (map weightOf (p :: ps)).
    now apply in_map. }
  unfold weightOf at 1 in Hle. rewrite Ew in Hle. cbn in Hle.
  rewrite Hwe in Hle. exact (Qlt_not_le _ _ Hw Hle).
Qed.

Lemma analyzePR_weightPR_not_repPR_witness :
  isRepPR (analyzePR 105 20 [bench 100 5; bench 95 8]) = false.
Proof.
  apply (analyzePR_weightPR_not_repPR 105 20 [bench 100 5; bench 95 8]);
    [discriminate | reflexivity].
Defined.

(** ** Sorting *)

Lemma insertBy_Permutation {A : Type} (cmp : A -> A -> Z) (x : A) (l : list A) :
  Permutation (insertBy cmp x l) (x :: l).
Proof.
  induction l as [|y l IH]; simpl; [reflexivity|].
  destruct (cmp x y <=? 0)%Z; [reflexivity|].
  rewrite IH. apply perm_swap.
Qed.

Lemma sortBy_Permutation {A : Type} (cmp : A -> A -> Z) (l : list A) :
  Permutation (sortBy cmp l) l.
Proof.
  induction l as [|x l IH]; simpl; [reflexivity|].
  rewrite insertBy_Permutation. now apply perm_skip.
Qed.

Lemma sortBy_In {A : Type} (cmp : A -> A -> Z) (l : list A) (x : A) :
  In x (sortBy cmp l) <-> In x l.
Proof.
  split; apply Permutation_in; [| symmetry]; apply sortBy_Permutation.
Qed.

Lemma sortBy_length {A : Type} (cmp : A -> A -> Z) (l : list A) :
  length (sortBy cmp l) = length l.
Proof. apply Permutation_length, sortBy_Permutation. Qed.


(** ** Aggregation index *)

Lemma reduce_max (f : PrEintraege -> Q) (l : list PrEintraege) (init : Q) :
  fold_left (fun max pr => Qmax max (f pr)) l init = mathMax init (map f l).
Proof.
  unfold mathMax. revert init. induction l as [|x l IH]; intros init; simpl; [reflexivity|].
  apply IH.
Qed.

(** The guarded maximum [m > 0 ? m : undefined] of a [reduce] that starts
    from 0: absent exactly when no element is positive, otherwise the
    largest element. *)
Lemma guarded_max (f : PrEintraege -> Q) (l : list PrEintraege) :
  let m := fold_left (fun max pr => Qmax max (f pr)) l 0%Q in
  let best := if Qgtb m 0 then Some m else None in
  (best = None <-> forall e, In e l -> (f e <= 0)%Q)
  /\ (forall b, best = Some b ->
        (0 < b)%Q /\ (exists e, In e l /\ f e = b) /\ forall e, In e l -> (f e <= b)%Q).
Proof.
  cbv zeta. rewrite reduce_max.
  pose proof (mathMax_In (map f l) 0%Q) as Hin.
  pose proof (mathMax_upper (map f l) 0%Q) as Hub.
  set (m := mathMax 0 (map f l)) in *.
  destruct (Qgtb m 0) eqn:G.
  - apply Qgtb_true in G. split.
    + split; [discriminate|]. intros Hall. exfalso.
      destruct Hin as [E | Hin].
      * rewrite <- E in G. exact (Qlt_irrefl _ G).
      * apply in_map_iff in Hin. destruct Hin as (e & Ee & He).
        specialize (Hall e He). rewrite Ee in Hall. exact (Qlt_not_le _ _ G Hall).
    + intros b [= <-]. split; [exact G|]. split.
      * destruct Hin as [E | Hin].
        -- rewrite <- E in G. exfalso. exact (Qlt_irrefl _ G).
        -- apply in_map_iff in Hin. destruct Hin as (e & Ee & He). eauto.
      * intros e He. apply Hub. right. now apply in_map.
  - apply Qgtb_false in G. split; [|discriminate].
    split; [|reflexivity]. intros _ e He.
    eapply Qle_trans; [|exact G]. apply Hub. right. now apply in_map.
Qed.

Section AggregationIndex.

Variable newDate : string -> option JsDate.

Lemma In_prs (prEintraege : list PrEintraege) (ex : Uebungen) (e : PrEintraege) :
  In e (prs (withPRs newDate prEintraege ex)) <->
  In e prEintraege /\ extractRecordId (exercise_id (pr_fields e)) = Some (record_id ex).
Proof.
  unfold withPRs. cbn [prs]. rewrite sortBy_In, filter_In. unfold refersTo.
  destruct (extractRecordId (exercise_id (pr_fields e))) as [i|].
  - rewrite String.eqb_eq. split; intros [H1 H2]; (split; [exact H1 | congruence]).
  - split; intros [_ H]; discriminate.
Qed.

(** C2, as the code has it.  The group of an exercise is the list of entries
    whose reference resolves to its id.  [bestKg] is absent exactly when no
    entry of the group has a positive [weight_kg] (an empty group, and also a
    group logged at 0 kg throughout); otherwise it is the largest [weight_kg]
    of the group, which is then positive.  The same holds of [bestReps] and
    [reps]. *)
Theorem withPRs_best (prEintraege : list PrEintraege) (ex : Uebungen) :
  let x := withPRs newDate prEintraege ex in
  (forall e, In e (prs x) <->
     In e prEintraege /\ extractRecordId (exercise_id (pr_fields e)) = Some (record_id ex))
  /\ (bestKg x = None <-> forall e, In e (prs x) -> (weightOf e <= 0)%Q)
  /\ (forall b, bestKg x = Some b ->
        (0 < b)%Q /\ (exists e, In e (prs x) /\ weightOf e = b)
        /\ forall e, In e (prs x) -> (weightOf e <= b)%Q)
  /\ (bestReps x = None <-> forall e, In e (prs x) -> (repsOf e <= 0)%Q)
  /\ (forall b, bestReps x = Some b ->
        (0 < b)%Q /\ (exists e, In e (prs x) /\ repsOf e = b)
        /\ forall e, In e (prs x) -> (repsOf e <= b)%Q).
Proof.
  intros x. split; [intros e; apply In_prs|].
  pose proof (guarded_max weightOf (prs x)) as [Hw1 Hw2].
  pose proof (guarded_max repsOf (prs x)) as [Hr1 Hr2].
  repeat split; try (apply Hw1 || apply Hr1); try (apply Hw2; assumption);
    try (apply Hr2; assumption).
Qed.

End AggregationIndex.

(** A group logged at 0 kg throughout has no [bestKg], although it is not
    empty: the statement that [bestKg] is absent exactly for an empty group,
    and 0 for a group at 0 kg, fails here. *)
Lemma bestKg_zero_weight_group :
  let e := logged "p1" idBench "2025-03-05" 0 10 in
  let x := withPRs Utc.newDate [e] exBench in
  prs x = [e] /\ weight_kg (pr_fields e) = Some 0%Q
  /\ bestKg x = None /\ bestKg x <> Some 0%Q /\ bestReps x = Some 10%Q.
Proof. cbv zeta. repeat split; try reflexivity. discriminate. Qed.

(** ** Calendar bucketer *)

Lemma groupStep_lookup (grouped : gmap string (list PrEintraege)) (pr : PrEintraege) (d : string) :
  groupStep grouped pr !! d =
    if decide (loggedOn d pr) then Some (default [] (grouped !! d) ++ [pr])%list else grouped !! d.
Proof.
  unfold groupStep. destruct (decide (loggedOn d pr)) as [[Hne K]|Hn].
  - rewrite K. destruct d as [|c s]; [congruence|].
    cbv zeta. now rewrite lookup_insert_eq.
  - destruct (dateKey pr) as [[|c s]|] eqn:K; try reflexivity.
    cbv zeta. rewrite lookup_insert_ne; [reflexivity|].
    intros <-. apply Hn. split; [discriminate | exact K].
Qed.

Lemma fold_groupStep_lookup (es : list PrEintraege) :
  forall (grouped : gmap string (list PrEintraege)) (d : string),
  fold_left groupStep es grouped !! d =
    match entriesOn d es with
    | [] => grouped !! d
    | l => Some (default [] (grouped !! d) ++ l)%list
    end.
Proof.
  unfold entriesOn. induction es as [|e es IH]; intros grouped d; [reflexivity|].
  cbn [fold_left]. rewrite IH, groupStep_lookup, filter_cons.
  destruct (decide (loggedOn d e)) as [H|H].
  - destruct (filter (loggedOn d) es) as [|x l]; simpl.
    + reflexivity.
    + now rewrite <- (assoc_L (++)).
  - reflexivity.
Qed.

(** The group of [d] is the list of entries logged on [d]; a date without
    such an entry has no group. *)
Lemma prsByDate_lookup (es : list PrEintraege) (d : string) :
  prsByDate es !! d = match entriesOn d es with [] => None | l => Some l end.
Proof.
  unfold prsByDate. rewrite fold_groupStep_lookup, lookup_empty.
  destruct (entriesOn d es); reflexivity.
Qed.

(** C8. The heatmap intensity of a date is the step function of the number
    of entries logged on that date: none for 0, low for 1 and 2, medium for 3
    and 4, high from 5 on. *)
Theorem getHeatmapIntensity_step (es : list PrEintraege) (dateStr : string) :
  getHeatmapIntensity (prsByDate es) dateStr = stepIntensity (length (entriesOn dateStr es)).
Proof.
  unfold getHeatmapIntensity. rewrite prsByDate_lookup.
  destruct (entriesOn dateStr es) as [|a [|b [|c [|d [|e l]]]]]; reflexivity.
Qed.

Example stepIntensity_buckets :
  map stepIntensity [0; 1; 2; 3; 4; 5; 9]%nat = [none; low; low; medium; medium; high; high].
Proof. reflexivity. Qed.

(** ** Date-keyed aggregates *)

Lemma fold_setAdd_In (xs : list (option string)) :
  forall (s : list (option string)) (x : option string),
  In x (fold_left setAdd xs s) <-> In x s \/ In x xs.
Proof.
  induction xs as [|y xs IH]; intros s x; cbn [fold_left].
  - cbn. tauto.
  - rewrite IH. unfold setAdd. case_bool_decide as Hy.
    + apply list_elem_of_In in Hy. cbn. split; [tauto|].
      intros [H | [<- | H]]; auto.
    + rewrite in_app_iff. cbn. tauto.
Qed.

Lemma fold_setAdd_NoDup (xs : list (option string)) :
  forall s : list (option string), NoDup s -> NoDup (fold_left setAdd xs s).
Proof.
  induction xs as [|y xs IH]; intros s Hs; cbn [fold_left]; [exact Hs|].
  apply IH. unfold setAdd. case_bool_decide as Hy; [exact Hs|].
  apply NoDup_app. split; [exact Hs|]. split.
  - intros x Hx [->|[]]%list_elem_of_In. contradiction.
  - apply NoDup_singleton.
Qed.

Lemma truthy_Some (k : option string) :
  truthy k = true <-> exists d, k = Some d /\ d <> EmptyString.
Proof.
  destruct k as [[|c s]|]; cbn; split; try discriminate.
  - intros (d & [= <-] & H). congruence.
  - intros _. eexists. split; [reflexivity | discriminate].
  - reflexivity.
  - intros (d & E & _). discriminate.
Qed.

(** The session dates are the non-empty date keys of the entries, each once. *)
Lemma In_uniqueDates (es : list PrEintraege) (k : option string) :
  In k (uniqueDates es) <-> exists d e, k = Some d /\ In e es /\ loggedOn d e.
Proof.
  unfold uniqueDates, newSet. rewrite fold_setAdd_In, filter_In, in_map_iff, truthy_Some.
  unfold loggedOn. split.
  - intros [[] | ((e & Ek & He) & d & -> & Hd)]. exists d, e. auto.
  - intros (d & e & -> & He & Hd & Ek). right. split; [exists e; auto | exists d; auto].
Qed.

Lemma NoDup_uniqueDates (es : list PrEintraege) : NoDup (uniqueDates es).
Proof. apply fold_setAdd_NoDup, NoDup_nil_2. Qed.

Lemma In_prsByDate (es : list PrEintraege) (d : string) (e : PrEintraege) :
  (exists l, prsByDate es !! d = Some l /\ In e l) <-> In e es /\ loggedOn d e.
Proof.
  rewrite prsByDate_lookup.
  assert (Hin : In e (entriesOn d es) <-> In e es /\ loggedOn d e).
  { unfold entriesOn. rewrite <- !list_elem_of_In, list_elem_of_filter. tauto. }
  rewrite <- Hin. destruct (entriesOn d es) as [|x l].
  - split; [intros (l & [=] & _) | intros []].
  - split; [intros (l' & [= <-] & H); exact H | intros H; eauto].
Qed.

Section WeeklyBuckets.

Variable newDate : string -> option JsDate.

Lemma trained_weeklyTraining (dates : list (option string)) (key : Z) :
  trained (weeklyTraining newDate dates) key = true <->
  exists d, In (Some d) dates /\ d <> EmptyString /\ weekKeyOf newDate d = Some key.
Proof.
  unfold weeklyTraining.
  set (step := fun (weekly : gmap (option Z) nat) (dateStr : option string) => _).
  assert (G : forall ds acc,
    (forall k n, acc !! k = Some n -> (1 <= n)%nat) ->
    (forall k n, fold_left step ds acc !! k = Some n -> (1 <= n)%nat)
    /\ forall k, is_Some (fold_left step ds acc !! k) <->
         is_Some (acc !! k)
         \/ exists d, In (Some d) ds /\ d <> EmptyString /\ weekKeyOf newDate d = k).
  { induction ds as [|x ds IH]; intros acc Hacc; cbn [fold_left].
    - split; [exact Hacc|]. intros k. split; [auto | intros [H | (d & [] & _)]; exact H].
    - assert (Hstep : forall k n, step acc x !! k = Some n -> (1 <= n)%nat).
      { intros k n. subst step. cbv beta. destruct x as [[|c s]|]; try apply Hacc.
        cbv zeta. destruct (decide (weekKeyOf newDate (String c s) = k)) as [<-|Hk].
        - rewrite lookup_insert_eq. intros [= <-]. lia.
        - rewrite lookup_insert_ne by exact Hk. apply Hacc. }
      destruct (IH (step acc x) Hstep) as [IH1 IH2]. split; [exact IH1|].
      intros k. rewrite IH2. subst step. cbv beta. destruct x as [[|c s]|].
      + split; intros [H | (d & Hd & Hne & Hk)]; auto.
        * right. exists d. cbn. auto.
        * destruct Hd as [[= <-] | Hd]; [congruence|]. right. eauto.
      + cbv zeta. destruct (decide (weekKeyOf newDate (String c s) = k)) as [<-|Hk].
        * rewrite lookup_insert_eq. split; intros _.
          -- right. exists (String c s). cbn. split; [auto|]. split; [discriminate | reflexivity].
          -- left. eauto.
        * rewrite lookup_insert_ne by exact Hk.
          split; intros [H | (d & Hd & Hne & Hkd)]; auto.
          -- right. exists d. cbn. auto.
          -- destruct Hd as [[= <-] | Hd]; [congruence|]. right. eauto.
      + split; intros [H | (d & Hd & Hne & Hk)]; auto.
        * right. exists d. cbn. auto.
        * destruct Hd as [[=] | Hd]. right. eauto. }
  destruct (G dates ∅) as [G1 G2]; [intros k n; rewrite lookup_empty; discriminate|].
  unfold trained. specialize (G2 (Some key)).
  destruct (fold_left step dates ∅ !! Some key) as [n|] eqn:E.
  - specialize (G1 _ _ E). split.
    + intros _. destruct G2 as [G2 _]. destruct G2 as [H | H]; [eauto | | exact H].
      rewrite lookup_empty in H. destruct H as [? [=]].
    + intros _. apply Nat.leb_le. exact G1.
  - split; [discriminate|]. intros H. destruct G2 as [_ G2].
    destruct G2 as [? [=]]. right. exact H.
Qed.

End WeeklyBuckets.

(** An entry whose date is no calendar date (month 13) is an Invalid Date
    for [new Date], and still makes a session and a calendar group of its
    own. *)
Lemma unparseable_date_counted :
  let e := logged "p1" idBench "2025-13-01" 100 5 in
  date (pr_fields e) = Some "2025-13-01"
  /\ Utc.newDate "2025-13-01" = None
  /\ totalSessions [e] = 1%nat
  /\ uniqueDates [e] = [Some "2025-13-01"]
  /\ prsByDate [e] !! "2025-13-01" = Some [e]
  /\ getHeatmapIntensity (prsByDate [e]) "2025-13-01" = low.
Proof. cbv zeta. repeat split; vm_compute; reflexivity. Qed.

(** [beforeT] gives the text before the first ['T']. *)
Lemma beforeT_noT (s : string) :
  forall c, In c (list_ascii_of_string (beforeT s)) -> c <> "T"%char.
Proof.
  induction s as [|a s IH]; intros c Hc; cbn [beforeT] in Hc; [destruct Hc|].
  destruct (Ascii.eqb a "T") eqn:E; [destruct Hc|].
  cbn [list_ascii_of_string] in Hc. destruct Hc as [<- | Hc]; [|now apply IH].
  intros ->. now rewrite Ascii.eqb_refl in E.
Qed.

Lemma beforeT_cases (s : string) :
  s = beforeT s \/ exists rest, s = beforeT s ++ String "T" rest.
Proof.
  induction s as [|a s IH]; [now left|]. cbn [beforeT].
  destruct (Ascii.eqb a "T") eqn:E.
  - apply Ascii.eqb_eq in E. subst a. right. now exists s.
  - destruct IH as [IH | (rest & IH)].
    + left. now rewrite <- IH.
    + right. exists rest. change (String a (beforeT s) ++ String "T" rest)
        with (String a (beforeT s ++ String "T" rest)). now rewrite <- IH.
Qed.

Lemma beforeT_prefix (d : string) :
  (forall c, In c (list_ascii_of_string d) -> c <> "T"%char) ->
  beforeT d = d /\ forall rest, beforeT (d ++ String "T" rest) = d.
Proof.
  induction d as [|a d IH]; intros Hd.
  - split; [reflexivity | intros rest; reflexivity].
  - assert (Ha : Ascii.eqb a "T" = false).
    { apply Ascii.eqb_neq. apply Hd. now left. }
    destruct IH as [I1 I2]; [intros c Hc; apply Hd; now right|]. split.
    + cbn [beforeT]. now rewrite Ha, I1.
    + intros rest. change (String a d ++ String "T" rest)
        with (String a (d ++ String "T" rest)). cbn [beforeT]. now rewrite Ha, I2.
Qed.

Lemma textBeforeT_beforeT (s d : string) : textBeforeT s d <-> d = beforeT s.
Proof.
  split.
  - intros [Hd [-> | (rest & ->)]]; destruct (beforeT_prefix d Hd) as [I1 I2];
      [now rewrite I1 | now rewrite I2].
  - intros ->. split; [apply beforeT_noT | apply beforeT_cases].
Qed.

Lemma loggedOn_text (d : string) (e : PrEintraege) :
  loggedOn d e <->
  d <> EmptyString /\ exists s, date (pr_fields e) = Some s /\ textBeforeT s d.
Proof.
  unfold loggedOn, dateKey. destruct (date (pr_fields e)) as [s|]; cbn.
  - split.
    + intros [Hd [= <-]]. split; [exact Hd|]. exists s. split; [reflexivity|].
      now apply textBeforeT_beforeT.
    + intros [Hd (s' & [= <-] & Ht)]. split; [exact Hd|]. f_equal. symmetry.
      now apply textBeforeT_beforeT.
  - split; [intros [_ H]; discriminate | intros [_ (s & H & _)]; discriminate].
Qed.

(** As long as no date key is a name that every object inherits, the
    grouping on the plain object is the grouping on the map. *)
Lemma groupStepJs_groupStep (grouped : gmap string (list PrEintraege)) (pr : PrEintraege) :
  (forall d, dateKey pr = Some d -> inheritedName d = false) ->
  groupStepJs grouped pr = Some (groupStep grouped pr).
Proof.
  intros H. unfold groupStepJs, groupStep.
  destruct (dateKey pr) as [[|c s]|]; [reflexivity| |reflexivity].
  cbv zeta. destruct (grouped !! String c s) as [l|]; [reflexivity|].
  now rewrite (H _ eq_refl).
Qed.

Lemma prsByDateJs_prsByDate (es : list PrEintraege) :
  (forall e d, In e es -> dateKey e = Some d -> inheritedName d = false) ->
  prsByDateJs es = Some (prsByDate es).
Proof.
  unfold prsByDateJs, prsByDate. generalize (∅ : gmap string (list PrEintraege)).
  induction es as [|e es IH]; intros g H; [reflexivity|].
  cbn [fold_left]. cbn [mbind option_bind].
  rewrite (groupStepJs_groupStep g e (fun d => H e d (or_introl eq_refl))).
  apply IH. intros e' d He'. apply H. now right.
Qed.

(** A date text such as ['constructor'] stops the grouping: on the empty
    object [grouped['constructor']] is the inherited function, which has no
    [push]. *)
Example prsByDateJs_inherited_name :
  prsByDateJs [logged "p1" idBench "constructor" 100 5] = None
  /\ prsByDateJs [logged "p1" idBench "2025-13-01" 100 5]
     = Some (prsByDate [logged "p1" idBench "2025-13-01" 100 5]).
Proof. split; vm_compute; reflexivity. Qed.

Section DateKeyed.

Variable newDate : string -> option JsDate.

(** C4, as the code has it.  As long as no date key is a name that every
    object inherits (where the grouping fails), an entry takes part in the
    date-keyed aggregates exactly when its date field is present and its
    text before the first ['T'] is not empty; whether that text is a
    calendar date is not asked.  Such an entry is in the calendar group of
    that text, and the text is one of the session dates.  Only for the streak
    is the date parsed: a week bucket has a session exactly when some session
    date parses into it, so a date that [new Date] rejects reaches no bucket.
    Whatever its date, every entry stays in the raw list, of which the
    recency feed is the first ten. *)
Theorem date_keyed_aggregates (uebungen : list Uebungen) (es : list PrEintraege) :
  (forall e d, In e es -> dateKey e = Some d -> inheritedName d = false) ->
  prsByDateJs es = Some (prsByDate es)
  /\ (forall d e, loggedOn d e <->
        d <> EmptyString /\ exists s, date (pr_fields e) = Some s /\ textBeforeT s d)
  /\ (forall d e, (exists l, prsByDate es !! d = Some l /\ In e l) <-> In e es /\ loggedOn d e)
  /\ (forall k, In k (uniqueDates es) <-> exists d e, k = Some d /\ In e es /\ loggedOn d e)
  /\ NoDup (uniqueDates es)
  /\ (forall key, trained (weeklyTraining newDate (uniqueDates es)) key = true <->
        exists d e, In e es /\ loggedOn d e /\ weekKeyOf newDate d = Some key)
  /\ Permutation (allPrEntries (loadData newDate uebungen es)) es
  /\ map fst (recentPRs (loadData newDate uebungen es))
     = take 10 (allPrEntries (loadData newDate uebungen es)).
Proof.
  intros Hplain.
  split; [now apply prsByDateJs_prsByDate|].
  split; [apply loggedOn_text|].
  split; [intros d e; apply In_prsByDate|].
  split; [intros k; apply In_uniqueDates|].
  split; [apply NoDup_uniqueDates|].
  split; [|split].
  - intros key. rewrite trained_weeklyTraining. split.
    + intros (d & Hd & _ & Hk). apply In_uniqueDates in Hd.
      destruct Hd as (d' & e & [= <-] & He & Hl). eauto.
    + intros (d & e & He & Hl & Hk). exists d. split; [|split].
      * apply In_uniqueDates. eauto.
      * apply Hl.
      * exact Hk.
  - cbn. apply sortBy_Permutation.
  - cbn. rewrite map_map. cbn. apply map_id.
Qed.

End DateKeyed.

Lemma date_keyed_aggregates_witness :
  prsByDateJs fourWeeks = Some (prsByDate fourWeeks)
  /\ Permutation (allPrEntries (loadData Utc.newDate [exBench; exSquat] fourWeeks)) fourWeeks.
Proof.
  destruct (date_keyed_aggregates Utc.newDate [exBench; exSquat] fourWeeks)
    as (H1 & _ & _ & _ & _ & _ & H2 & _); [|split; [exact H1 | exact H2]].
  intros e d Hin Hk.
  repeat (destruct Hin as [<- | Hin]; [vm_compute in Hk; injection Hk as <-; reflexivity|]).
  destruct Hin.
Defined.

(** ** Top exercises *)

(** C3, at a failing input.  Two exercises, the second logged twice and the
    first once.  The ids are
    ranked by frequency ([idSquat] first), but [topExercises] filters the
    exercise list by membership in that ranking and so returns the exercises
    in their original order, the less frequent one first; the list is shown
    with the positions 1, 2, ....  [calculateTopUebungen] returns them by
    frequency. *)
Lemma topExercises_not_ranked :
  let es := [logged "p1" idSquat "2025-03-03" 100 5;
             logged "p2" idSquat "2025-03-10" 105 5;
             logged "p3" idBench "2025-03-05" 80 5] in
  let st := loadData Utc.newDate [exBench; exSquat] es in
  exerciseFrequency (allPrEntries st) = [(idSquat, 2%nat); (idBench, 1%nat)]
  /\ topExerciseIds (allPrEntries st) = [idSquat; idBench]
  /\ map (fun x => record_id (exercise x)) (topExercises (allPrEntries st) (exercises st))
     = [idBench; idSquat]
  /\ map tu_name (calculateTopUebungen [exBench; exSquat] es) = ["Kniebeuge"; "Bankdruecken"].
Proof. cbv zeta. repeat split; vm_compute; reflexivity. Qed.

(** ** Weekly streak *)

Lemma streakLoop_countedWeeks (weekly : gmap (option Z) nat) (n : nat) :
  forall (y w : Z) (s : nat),
  streakLoop n weekly y w s = (s + countedWeeks n weekly (y, w))%nat.
Proof.
  induction n as [|n IH]; intros y w s; cbn [streakLoop countedWeeks]; [lia|].
  unfold bucket at 1. cbn [fst snd].
  destruct (trained weekly (y * 100 + w)); [|lia].
  unfold prevWeek. cbn [fst snd].
  destruct (w - 1 <? 1)%Z; rewrite IH; lia.
Qed.

Lemma iter_prevWeek_shift (i : nat) (yw : Z * Z) :
  Nat.iter i prevWeek (prevWeek yw) = Nat.iter (S i) prevWeek yw.
Proof.
  induction i as [|i IH]; [reflexivity|].
  change (prevWeek (Nat.iter i prevWeek (prevWeek yw)) = prevWeek (Nat.iter (S i) prevWeek yw)).
  now rewrite IH.
Qed.

(** The walk counts exactly the leading weeks that have a session, up to
    its bound. *)
Lemma countedWeeks_spec (weekly : gmap (option Z) nat) (n : nat) :
  forall yw : Z * Z,
  let c := countedWeeks n weekly yw in
  (c <= n)%nat
  /\ (forall i, (i < c)%nat -> trained weekly (bucket (Nat.iter i prevWeek yw)) = true)
  /\ ((c < n)%nat -> trained weekly (bucket (Nat.iter c prevWeek yw)) = false).
Proof.
  induction n as [|n IH]; intros yw; cbn [countedWeeks].
  - cbv zeta. repeat split; intros; lia.
  - destruct (trained weekly (bucket yw)) eqn:T.
    + destruct (IH (prevWeek yw)) as (H1 & H2 & H3). cbv zeta. split; [lia|]. split.
      * intros [|i] Hi; [exact T|]. rewrite <- iter_prevWeek_shift. apply H2. lia.
      * intros Hc. rewrite <- iter_prevWeek_shift. apply H3. lia.
    + cbv zeta. split; [lia|]. split; [intros; lia | intros _; exact T].
Qed.

(** A count is determined by the weeks it covers. *)
Lemma countedWeeks_unique (weekly : gmap (option Z) nat) (n k : nat) (yw : Z * Z) :
  (k < n)%nat ->
  (forall i, (i < k)%nat -> trained weekly (bucket (Nat.iter i prevWeek yw)) = true) ->
  trained weekly (bucket (Nat.iter k prevWeek yw)) = false ->
  countedWeeks n weekly yw = k.
Proof.
  intros Hk Hall Hstop. destruct (countedWeeks_spec weekly n yw) as (H1 & H2 & H3).
  destruct (Nat.lt_trichotomy (countedWeeks n weekly yw) k) as [Hlt | [E | Hgt]].
  - specialize (H3 ltac:(lia)). rewrite Hall in H3 by exact Hlt. discriminate.
  - exact E.
  - specialize (H2 k Hgt). congruence.
Qed.

Lemma decode_bucket (y w : Z) :
  (0 <= y)%Z -> (0 <= w < 100)%Z ->
  ((y * 100 + w) / 100 = y)%Z /\ Z.rem (y * 100 + w) 100 = w.
Proof.
  intros Hy Hw. split.
  - rewrite Z.div_add_l by lia. rewrite Z.div_small by lia. lia.
  - rewrite Z.rem_mod_nonneg by lia.
    rewrite Z.add_comm, Z.mod_add by lia. apply Z.mod_small. lia.
Qed.

(** The streak is the walk of at most 52 steps from the current week when
    it has a session, and from the week before otherwise. *)
Lemma currentStreak_countedWeeks (weekly : gmap (option Z) nat) (now : JsDate) :
  (1 <= getWeek now <= 53)%Z -> (1 <= getFullYear now)%Z ->
  let cur := (getFullYear now, getWeek now) in
  currentStreak weekly now =
    countedWeeks 52 weekly (if trained weekly (bucket cur) then cur else prevWeek cur).
Proof.
  intros Hw Hy cur. unfold currentStreak. cbv zeta.
  change (getFullYear now * 100 + getWeek now)%Z with (bucket cur).
  destruct (trained weekly (bucket cur)).
  - unfold bucket, cur. cbn [fst snd].
    destruct (decode_bucket (getFullYear now) (getWeek now)) as [-> ->]; try lia.
    now rewrite streakLoop_countedWeeks.
  - unfold prevWeek, cur. cbn [fst snd].
    destruct (getWeek now =? 1)%Z eqn:E1.
    + apply Z.eqb_eq in E1. rewrite E1. cbn [Z.sub Z.ltb Z.compare Z.pos_sub].
      destruct (decode_bucket (getFullYear now - 1) 52) as [-> ->]; try lia.
      now rewrite streakLoop_countedWeeks.
    + apply Z.eqb_neq in E1.
      destruct (getWeek now - 1 <? 1)%Z eqn:E2; [apply Z.ltb_lt in E2; lia|].
      destruct (decode_bucket (getFullYear now) (getWeek now - 1)) as [-> ->]; try lia.
      now rewrite streakLoop_countedWeeks.
Qed.

Section Streak.

Variable newDate : string -> option JsDate.

(** A week bucket counts as trained exactly when some entry is logged on a
    date that [new Date] places in it. *)
Lemma trained_iff_logged (es : list PrEintraege) (key : Z) :
  trained (weeklyTraining newDate (uniqueDates es)) key = true <->
  exists d e, In e es /\ loggedOn d e /\ weekKeyOf newDate d = Some key.
Proof.
  rewrite trained_weeklyTraining. split.
  - intros (d & Hd & _ & Hk). apply In_uniqueDates in Hd.
    destruct Hd as (d' & e & [= <-] & He & Hl). eauto.
  - intros (d & e & He & Hl & Hk). exists d. split; [|split].
    + apply In_uniqueDates. eauto.
    + apply Hl.
    + exact Hk.
Qed.

(** X24. On the week keys of the code.  Every session date goes to the
    key [getFullYear * 100 + getWeek] of its date.  The walk starts at the
    key of [now] when that key has a session and at the key before
    otherwise; [currentStreak] is the number of keys it visits, one key back
    at a time, before the first key without a session, and at most 52.  The
    key before [(year, week)] is [(year, week - 1)], and [(year - 1, 52)]
    from week 1: at a turn of the year this is not always the calendar week
    before. *)
Theorem currentStreak_walk (es : list PrEintraege) (now : JsDate) :
  (1 <= getWeek now <= 53)%Z -> (1 <= getFullYear now)%Z ->
  let weekly := weeklyTraining newDate (uniqueDates es) in
  let has := fun yw => trained weekly (bucket yw) in
  let cur := (getFullYear now, getWeek now) in
  let start := if has cur then cur else prevWeek cur in
  let streak := currentStreak weekly now in
  (forall yw, has yw = true <->
     exists d e, In e es /\ loggedOn d e /\ weekKeyOf newDate d = Some (bucket yw))
  /\ (streak <= 52)%nat
  /\ (forall i, (i < streak)%nat -> has (Nat.iter i prevWeek start) = true)
  /\ ((streak < 52)%nat -> has (Nat.iter streak prevWeek start) = false)
  /\ (has cur = true -> has (prevWeek cur) = true ->
      has (Nat.iter 2 prevWeek cur) = true -> has (Nat.iter 3 prevWeek cur) = true ->
      has (Nat.iter 4 prevWeek cur) = false -> streak = 4%nat)
  /\ (has cur = true -> has (prevWeek cur) = false -> streak = 1%nat).
Proof.
  intros Hw Hy weekly has cur start streak.
  assert (Hs : streak = countedWeeks 52 weekly start)
    by (apply currentStreak_countedWeeks; assumption).
  destruct (countedWeeks_spec weekly 52 start) as (H1 & H2 & H3).
  rewrite <- Hs in H1, H2, H3.
  split; [intros yw; apply trained_iff_logged|].
  split; [exact H1|]. split; [exact H2|]. split; [exact H3|]. split.
  - intros T0 T1 T2 T3 T4. rewrite Hs. unfold start. rewrite T0.
    apply countedWeeks_unique; [lia | | exact T4].
    intros [|[|[|[|i]]]] Hi; try assumption. lia.
  - intros T0 T1. rewrite Hs. unfold start. rewrite T0.
    apply countedWeeks_unique; [lia | | exact T1].
    intros [|i] Hi; [exact T0 | lia].
Qed.

End Streak.

Example Utc_newDate_epoch : Utc.newDate "1970-01-01" = Some (mkDate 0 1970 1).
Proof. reflexivity. Qed.

Example Utc_newDate_2025_03_19 : Utc.newDate "2025-03-19" = Some (mkDate 1742342400000 2025 12).
Proof. reflexivity. Qed.

Example Utc_newDate_invalid : Utc.newDate "x" = None /\ Utc.newDate "2025-13-01" = None.
Proof. split; reflexivity. Qed.

Lemma currentStreak_walk_witness :
  Utc.newDate "2025-03-19" = Some wednesday_2025_03_19
  /\ currentStreak (weeklyTraining Utc.newDate (uniqueDates fourWeeks)) wednesday_2025_03_19
     = 4%nat.
Proof.
  split; [reflexivity|].
  destruct (currentStreak_walk Utc.newDate fourWeeks wednesday_2025_03_19)
    as (_ & _ & _ & _ & H4 & _); [cbn; lia | cbn; lia |].
  apply H4; vm_compute; reflexivity.
Defined.

(** The current week trained, the week before empty: only the current week
    counts.  And an empty current week does not break the streak of the
    weeks before it. *)
Example currentStreak_gap :
  currentStreak
    (weeklyTraining Utc.newDate
       (uniqueDates [logged "p1" idBench "2025-03-05" 95 5; logged "p2" idBench "2025-03-19" 100 5]))
    wednesday_2025_03_19 = 1%nat
  /\ currentStreak
       (weeklyTraining Utc.newDate
          (uniqueDates [logged "p1" idBench "2025-03-05" 95 5; logged "p2" idBench "2025-03-12" 100 5]))
       wednesday_2025_03_19 = 2%nat.
Proof. split; vm_compute; reflexivity. Qed.

(** C5, at a failing input.  Four Tuesdays in a row, the last of them today,
    31 December 2024: four trained weeks that end in the current week.  The
    week of 31 December is week 1 (it holds 1 January 2025), but
    [getFullYear] is still 2024, so today's key is 202401.  The walk counts
    that key and steps to week 52 of 2023, where nobody trained: the streak
    is 1, not 4.  And a single session on 2 January 2024 has the key 202401
    as well, so that on 31 December 2024 it counts as a session of the
    current week: the streak is 1, with no session in the current week or the
    week before. *)
Lemma currentStreak_turn_of_year :
  let es := [logged "p1" idBench "2024-12-10" 90 5;
             logged "p2" idBench "2024-12-17" 95 5;
             logged "p3" idBench "2024-12-24" 100 5;
             logged "p4" idBench "2024-12-31" 100 6] in
  let now := mkDate 1735603200000 2024 1 in
  let week := 604800000%Z in
  Utc.newDate "2024-12-31" = Some now
  /\ map (fun e => entryTime Utc.newDate e) es
     = [Some (getTime now - 3 * week); Some (getTime now - 2 * week);
        Some (getTime now - week); Some (getTime now)]%Z
  /\ map (fun e => dateKey e ≫= weekKeyOf Utc.newDate) es
     = [Some 202450; Some 202451; Some 202452; Some 202401]%Z
  /\ currentStreak (weeklyTraining Utc.newDate (uniqueDates es)) now = 1%nat
  /\ stats_currentStreak <$> statsData Utc.newDate es [] now = Some 1%nat
  /\ entryTime Utc.newDate (logged "p0" idBench "2024-01-02" 80 5)
     = Some (getTime now - 52 * week)%Z
  /\ currentStreak
       (weeklyTraining Utc.newDate (uniqueDates [logged "p0" idBench "2024-01-02" 80 5])) now
     = 1%nat.
Proof. cbv zeta. repeat split; vm_compute; reflexivity. Qed.

(** ** Strength gain *)

Lemma pushTo_groupOf (groups : list (string * list PrEintraege)) (k k' : string) (pr : PrEintraege) :
  groupOf k (pushTo groups k' pr) =
    if String.eqb k' k then Some (default [] (groupOf k groups) ++ [pr])%list
    else groupOf k groups.
Proof.
  induction groups as [|[j g] rest IH]; cbn [pushTo groupOf].
  - destruct (String.eqb k' k); reflexivity.
  - destruct (String.eqb j k') eqn:E1; cbn [groupOf].
    + apply String.eqb_eq in E1. subst j. destruct (String.eqb k' k); reflexivity.
    + destruct (String.eqb j k) eqn:E2; [|exact IH].
      apply String.eqb_eq in E2. subst j. now rewrite String.eqb_sym, E1.
Qed.

Lemma pushTo_keys (groups : list (string * list PrEintraege)) (k : string) (pr : PrEintraege) :
  map fst (pushTo groups k pr) =
    if bool_decide (k ∈ map fst groups) then map fst groups else (map fst groups ++ [k])%list.
Proof.
  induction groups as [|[j g] rest IH]; cbn [pushTo map fst].
  - rewrite bool_decide_eq_false_2; [reflexivity | apply not_elem_of_nil].
  - destruct (String.eqb j k) eqn:E.
    + apply String.eqb_eq in E. subst j. rewrite bool_decide_eq_true_2 by apply list_elem_of_here.
      reflexivity.
    + apply String.eqb_neq in E. cbn [map fst]. rewrite IH.
      case_bool_decide as H1; case_bool_decide as H2; try reflexivity.
      * exfalso. apply H2. now apply list_elem_of_further.
      * exfalso. apply elem_of_cons in H2. destruct H2; [congruence | contradiction].
Qed.

Lemma groupOf_In (groups : list (string * list PrEintraege)) (k : string) (g : list PrEintraege) :
  NoDup (map fst groups) -> In (k, g) groups -> groupOf k groups = Some g.
Proof.
  induction groups as [|[j h] rest IH]; intros ND Hin; [destruct Hin|].
  cbn [map fst] in ND. apply NoDup_cons in ND. destruct ND as [Hj ND]. cbn [groupOf].
  destruct Hin as [[= -> ->] | Hin].
  - now rewrite String.eqb_refl.
  - destruct (String.eqb j k) eqn:E; [|now apply IH].
    apply String.eqb_eq in E. subst j. exfalso. apply Hj.
    apply list_elem_of_In, in_map_iff. exists (k, g). auto.
Qed.

Lemma groupOf_Some_In (groups : list (string * list PrEintraege)) (k : string) (g : list PrEintraege) :
  groupOf k groups = Some g -> In (k, g) groups.
Proof.
  induction groups as [|[j h] rest IH]; cbn [groupOf]; [discriminate|].
  destruct (String.eqb j k) eqn:E.
  - apply String.eqb_eq in E. intros [= ->]. subst. now left.
  - intros H. right. now apply IH.
Qed.

Lemma entriesByExercise_fold (es : list PrEintraege) :
  forall groups : list (string * list PrEintraege),
  NoDup (map fst groups) ->
  NoDup (map fst (fold_left pushEntry es groups))
  /\ forall k, groupOf k (fold_left pushEntry es groups) =
       match List.filter (resolvesTo k) es with
       | [] => groupOf k groups
       | l => Some (default [] (groupOf k groups) ++ l)%list
       end.
Proof.
  induction es as [|e es IH]; intros groups ND; cbn [fold_left List.filter].
  - split; [exact ND | reflexivity].
  - assert (ND' : NoDup (map fst (pushEntry groups e))).
    { unfold pushEntry. destruct (extractRecordId _) as [[|c s]|]; try exact ND.
      rewrite pushTo_keys. case_bool_decide as H; [exact ND|].
      apply NoDup_app. split; [exact ND|]. split; [|apply NoDup_singleton].
      intros x Hx [<-|[]]%list_elem_of_In. contradiction. }
    destruct (IH (pushEntry groups e) ND') as [IH1 IH2]. split; [exact IH1|].
    intros k. rewrite (IH2 k). unfold pushEntry, resolvesTo at 2.
    destruct (extractRecordId (exercise_id (pr_fields e))) as [[|c s]|] eqn:X.
    + exfalso. now apply (extractRecordId_nonempty _ _ X).
    + rewrite pushTo_groupOf. destruct (String.eqb (String c s) k).
      * cbn [default from_option id]. destruct (List.filter (resolvesTo k) es); cbn.
        -- reflexivity.
        -- now rewrite <- (assoc_L (++)).
      * reflexivity.
    + reflexivity.
Qed.

Lemma entriesByExercise_groups (es : list PrEintraege) :
  NoDup (map fst (entriesByExercise es))
  /\ forall k g, In (k, g) (entriesByExercise es) <->
       g = List.filter (resolvesTo k) es /\ g <> [].
Proof.
  destruct (entriesByExercise_fold es [] (NoDup_nil_2 : NoDup (map fst []))) as [ND G].
  fold (entriesByExercise es) in ND, G. split; [exact ND|].
  intros k g. specialize (G k). cbn [groupOf default from_option id app] in G. split.
  - intros Hin. rewrite (groupOf_In _ _ _ ND Hin) in G.
    destruct (List.filter (resolvesTo k) es); [discriminate|].
    injection G as ->. split; [reflexivity | discriminate].
  - intros [-> Hne]. apply groupOf_Some_In. rewrite G.
    destruct (List.filter (resolvesTo k) es); [congruence | reflexivity].
Qed.


(** [fl] is the rounding of the binary64 operations of Rocq's primitive
    floats. *)
Example fl_binary64 :
  doubleValue (23 / 80)%float = Some (fl (23 / 80))
  /\ doubleValue (23 / 80 * 100)%float = Some (fl (fl (23 / 80) * 100))
  /\ doubleValue (23 / 80 * 100 * 10)%float = Some (fl (fl (fl (23 / 80) * 100) * 10))
  /\ doubleValue (287 / 10)%float = Some (fl (287 / 10))
  /\ doubleValue (1 / 3 + 2 / 3)%float = Some (fl (fl (1 / 3) + fl (2 / 3)))
  /\ doubleValue (1 / 10 + 2 / 10)%float = Some (fl (fl (1 / 10) + fl (2 / 10)))
  /\ doubleValue (1 / 10 - 3 / 10)%float = Some (fl (fl (1 / 10) - fl (3 / 10)))
  /\ doubleValue (9007199254740991 / 7)%float = Some (fl (9007199254740991 / 7))
  /\ doubleValue (3 * (6755399441055750 / 4503599627370496))%float
     = Some (fl (3 * fl (6755399441055750 / 4503599627370496))).
Proof. repeat split; vm_compute; reflexivity. Qed.

Section StrengthGain.

Variable newDate : string -> option JsDate.








End StrengthGain.



(** The scenario of the specification: exercise A goes from 100 kg to 120 kg
    within a month, exercise B has a single entry; only A's 20 percent
    count.  An exercise with two entries and no improvement leaves the mean
    at 20, and a second improving exercise (100 to 125 kg) moves it to 22.5. *)
Example strengthGainPercent_scenario :
  let a := [logged "a1" idBench "2025-01-01" 100 5; logged "a2" idBench "2025-01-30" 120 5] in
  let b := [logged "b1" idSquat "2025-01-10" 140 5] in
  let c := [logged "c1" "694d77f4b641f5b879e4e812" "2025-01-03" 80 8;
            logged "c2" "694d77f4b641f5b879e4e812" "2025-01-17" 80 8] in
  let d := [logged "d1" "694d77f4b641f5b879e4e813" "2025-01-20" 125 3;
            logged "d2" "694d77f4b641f5b879e4e813" "2025-01-06" 100 3] in
  strengthGainPercent64 Utc.newDate (a ++ b)%list = 20%Q
  /\ strengthGainPercent64 Utc.newDate (a ++ b ++ c)%list = 20%Q
  /\ strengthGainPercent64 Utc.newDate (a ++ b ++ c ++ d)%list = (45 # 2)%Q
  /\ strengthGainPercent64 Utc.newDate (b ++ c)%list = 0%Q.
Proof. cbv zeta. repeat split; vm_compute; reflexivity. Qed.

(** * Further properties *)

(** ** PR classifier: weight and volume *)

Lemma Qgtb_mathMax (f : PrEintraege -> Q) (x : Q) (a : PrEintraege) (l : list PrEintraege) :
  Qgtb x (mathMax (f a) (map f l)) = true <-> forall e, In e (a :: l) -> (f e < x)%Q.
Proof.
  rewrite Qgtb_true. split.
  - intros H e He. eapply Qle_lt_trans; [|exact H].
    apply mathMax_upper. change (f a :: map f l) with (map f (a :: l)). now apply in_map.
  - intros H. pose proof (mathMax_In (map f l) (f a)) as Hin.
    change (f a :: map f l) with (map f (a :: l)) in Hin.
    apply in_map_iff in Hin. destruct Hin as (e & <- & He). now apply H.
Qed.

Lemma mathMax_is_max (f : PrEintraege -> Q) (a : PrEintraege) (l : list PrEintraege) :
  (exists e, In e (a :: l) /\ f e = mathMax (f a) (map f l))
  /\ forall e, In e (a :: l) -> (f e <= mathMax (f a) (map f l))%Q.
Proof.
  split.
  - pose proof (mathMax_In (map f l) (f a)) as Hin.
    change (f a :: map f l) with (map f (a :: l)) in Hin.
    apply in_map_iff in Hin. destruct Hin as (e & E & He). eauto.
  - intros e He. apply mathMax_upper.
    change (f a :: map f l) with (map f (a :: l)). now apply in_map.
Qed.



(** X2. Logging again the weight and repetitions of a prior entry is no PR
    of any kind. *)
Theorem analyzePR_repeat (newWeight newReps : Q) (prior : list PrEintraege) (e : PrEintraege) :
  In e prior -> atWeight newWeight e -> (repsOf e == newReps)%Q ->
  let r := analyzePR newWeight newReps prior in
  isWeightPR r = false /\ isRepPR r = false /\ isVolumePR r = false.
Proof.
  intros He Hw Hr. assert (Hne : prior <> []) by (intros ->; destruct He).
  assert (Ew : (weightOf e == newWeight)%Q).
  { destruct Hw as (w & E & Hw). unfold weightOf. rewrite E. exact Hw. }
  pose proof (analyzePR_reps_nonempty newWeight newReps prior Hne) as Hreps.
  cbv zeta in Hreps |- *. split; [|split].
  - destruct prior as [|a l]; [congruence|]. cbn -[In mathMax].
    apply Qgtb_false. rewrite <- Ew. now apply mathMax_is_max.
  - destruct (List.filter (sameWeightAs newWeight) prior) as [|s ss] eqn:Hf;
      [apply Hreps|].
    destruct Hreps as [_ ->]. apply Qgtb_false. rewrite <- Hr.
    apply (maxRepsAt_mathMax newWeight prior s ss Hf); assumption.
  - destruct prior as [|a l]; [congruence|]. cbn -[In mathMax].
    apply Qgtb_false.
    assert (Ev : (newWeight * newReps == volumeOf e)%Q)
      by (unfold volumeOf; now rewrite Ew, Hr).
    rewrite Ev. now apply mathMax_is_max.
Qed.

Lemma analyzePR_repeat_witness :
  let r := analyzePR 100 5 [bench 90 8; bench 100 5] in
  isWeightPR r = false /\ isRepPR r = false /\ isVolumePR r = false.
Proof.
  apply (analyzePR_repeat 100 5 [bench 90 8; bench 100 5] (bench 100 5)).
  - right. now left.
  - exists 100%Q. split; reflexivity.
  - reflexivity.
Defined.



(** ** Reference resolver: what it returns *)

Lemma substring_length (s : string) :
  forall n m, (n + m <= String.length s)%nat -> String.length (substring n m s) = m.
Proof.
  induction s as [|c s IH]; intros n m H.
  - cbn in H. assert (n = 0%nat) by lia. assert (m = 0%nat) by lia. subst. reflexivity.
  - destruct n as [|n]; destruct m as [|m]; cbn in *; try reflexivity.
    + f_equal. apply IH. lia.
    + apply IH. lia.
    + apply IH. lia.
Qed.

Lemma substring_split (s : string) :
  forall n, (n <= String.length s)%nat ->
  s = substring 0 n s ++ substring n (String.length s - n) s.
Proof.
  induction s as [|c s IH]; intros n H.
  - cbn in H. assert (n = 0%nat) by lia. subst. reflexivity.
  - destruct n as [|n].
    + cbn [substring String.length Nat.sub]. change ("" ++ ?x) with x.
      change (String c s = String c (substring 0 (String.length s) s)).
      now rewrite Str.substring_0_length.
    + cbn [substring String.length Nat.sub].
      change (String c s = String c (substring 0 n s ++ substring n (String.length s - n) s)).
      f_equal. apply IH. cbn in H. lia.
Qed.

Lemma extractRecordId_suffix_of (u k : string) :
  extractRecordId (Some u) = Some k ->
  String.length k = 24%nat /\ allHex k = true /\ exists p, u = p ++ k.
Proof.
  unfold extractRecordId. destruct (String.length u <? 24)%nat eqn:L; [discriminate|].
  apply Nat.ltb_ge in L. cbv zeta.
  destruct (allHex (substring (String.length u - 24) 24 u)) eqn:Hx; [|discriminate].
  intros [= <-]. split; [apply substring_length; lia|]. split; [exact Hx|].
  exists (substring 0 (String.length u - 24) u).
  pose proof (substring_split u (String.length u - 24) (Nat.le_sub_l _ _)) as Hs.
  replace (String.length u - (String.length u - 24))%nat with 24%nat in Hs by lia.
  exact Hs.
Qed.

Lemma extractRecordId_of_suffix (p k : string) :
  String.length k = 24%nat -> allHex k = true -> extractRecordId (Some (p ++ k)) = Some k.
Proof.
  intros Hlen Hhex. unfold extractRecordId.
  assert (Hl : String.length (p ++ k) = (String.length p + 24)%nat)
    by (rewrite Str.length_app, Hlen; reflexivity).
  destruct (String.length (p ++ k) <? 24)%nat eqn:E; [apply Nat.ltb_lt in E; lia|].
  pose proof (Str.substring_suffix p k) as Hs. rewrite Hlen in Hs.
  cbv zeta. now rewrite Hs, Hhex.
Qed.

(** X4. [extractRecordId] answers with [k] exactly when the reference ends
    in [k] and [k] is 24 hexadecimal characters: an id it returns is never
    shorter, longer or of other characters, and a reference that is [null],
    shorter than 24 characters or ends otherwise gets [null].  An id it
    returns resolves to itself. *)
Theorem extractRecordId_spec (u k : string) :
  (extractRecordId (Some u) = Some k <->
     String.length k = 24%nat /\ allHex k = true /\ exists p, u = p ++ k)
  /\ (extractRecordId (Some u) = Some k -> extractRecordId (Some k) = Some k)
  /\ ((String.length u < 24)%nat -> extractRecordId (Some u) = None)
  /\ extractRecordId None = None.
Proof.
  split; [|split; [|split]].
  - split; [apply extractRecordId_suffix_of|].
    intros (Hl & Hx & p & ->). now apply extractRecordId_of_suffix.
  - intros H. apply extractRecordId_suffix_of in H. destruct H as (Hl & Hx & _).
    apply (extractRecordId_of_suffix "" k Hl Hx).
  - intros H. unfold extractRecordId. apply Nat.ltb_lt in H. now rewrite H.
  - reflexivity.
Qed.

Lemma createRecordUrl_suffix (appId recordId : string) :
  createRecordUrl appId recordId
  = ("https://my.living-apps.de/rest/apps/" ++ appId ++ "/records/") ++ recordId.
Proof. unfold createRecordUrl. now rewrite !Str.app_assoc. Qed.

(** X5. The round trip through [createRecordUrl] gives the id back exactly
    for the ids of 24 hexadecimal characters: any other id is resolved to
    something else or not at all. *)
Theorem createRecordUrl_roundtrip_iff (appId recordId : string) :
  extractRecordId (Some (createRecordUrl appId recordId)) = Some recordId
  <-> String.length recordId = 24%nat /\ allHex recordId = true.
Proof.
  split.
  - intros H. apply extractRecordId_suffix_of in H. tauto.
  - intros [Hl Hx]. rewrite createRecordUrl_suffix. now apply extractRecordId_of_suffix.
Qed.

Example createRecordUrl_other_ids :
  extractRecordId (Some (createRecordUrl "694d77f2ef696e8bff21287d" "42")) = None
  /\ extractRecordId (Some (createRecordUrl "694d77f2ef696e8bff21287d" "aa694d77f4b641f5b879e4e810"))
     = Some "694d77f4b641f5b879e4e810".
Proof. split; reflexivity. Qed.

(** ** Sorting: order and stability *)

Lemma insertBy_sorted {A : Type} (key : A -> Z) (cmp : A -> A -> Z) (x : A) (s : list A) :
  (forall y, In y s -> cmp x y = (key x - key y)%Z) ->
  StronglySorted (fun a b => (key a <= key b)%Z) s ->
  StronglySorted (fun a b => (key a <= key b)%Z) (insertBy cmp x s).
Proof.
  induction s as [|y s IH]; intros Hc Hs; cbn [insertBy].
  - constructor; constructor.
  - apply StronglySorted_inv in Hs. destruct Hs as [Hs Hy].
    destruct (cmp x y <=? 0)%Z eqn:C.
    + apply Z.leb_le in C. rewrite Hc in C by now left.
      constructor; [constructor; assumption|].
      constructor; [lia|]. rewrite List.Forall_forall in Hy |- *.
      intros z Hz. specialize (Hy z Hz). cbn in Hy. lia.
    + apply Z.leb_gt in C. rewrite Hc in C by now left.
      constructor; [apply IH; [intros; apply Hc; now right | exact Hs]|].
      apply List.Forall_forall. intros z Hz.
      apply (Permutation_in _ (insertBy_Permutation cmp x s)) in Hz.
      destruct Hz as [<- | Hz]; [lia|]. rewrite List.Forall_forall in Hy. now apply Hy.
Qed.

(** Sorting by a comparator that is the difference of a key orders the list
    by that key. *)
Lemma sortBy_sorted {A : Type} (key : A -> Z) (cmp : A -> A -> Z) (l : list A) :
  (forall a b, In a l -> In b l -> cmp a b = (key a - key b)%Z) ->
  StronglySorted (fun a b => (key a <= key b)%Z) (sortBy cmp l).
Proof.
  induction l as [|a l IH]; intros Hc; [constructor|].
  cbn [sortBy fold_right]. fold (sortBy cmp l). apply insertBy_sorted.
  - intros y Hy. apply Hc; [now left | right; now apply sortBy_In in Hy].
  - apply IH. intros; apply Hc; now right.
Qed.

Lemma insertBy_filter {A : Type} (key : A -> Z) (cmp : A -> A -> Z) (k : Z) (x : A) (s : list A) :
  (forall y, In y s -> cmp x y = (key x - key y)%Z) ->
  List.filter (fun e => key e =? k)%Z (insertBy cmp x s)
  = List.filter (fun e => key e =? k)%Z (x :: s).
Proof.
  induction s as [|y s IH]; intros Hc; [reflexivity|]. cbn [insertBy].
  destruct (cmp x y <=? 0)%Z eqn:C; [reflexivity|].
  apply Z.leb_gt in C. rewrite Hc in C by now left.
  cbn [List.filter]. rewrite IH by (intros; apply Hc; now right). cbn [List.filter].
  destruct (key x =? k)%Z eqn:Kx; [|reflexivity].
  apply Z.eqb_eq in Kx. destruct (key y =? k)%Z eqn:Ky; [|reflexivity].
  apply Z.eqb_eq in Ky. lia.
Qed.

(** The sort is stable: the elements of one key keep their order. *)
Lemma sortBy_stable {A : Type} (key : A -> Z) (cmp : A -> A -> Z) (k : Z) (l : list A) :
  (forall a b, In a l -> In b l -> cmp a b = (key a - key b)%Z) ->
  List.filter (fun e => key e =? k)%Z (sortBy cmp l) = List.filter (fun e => key e =? k)%Z l.
Proof.
  induction l as [|a l IH]; intros Hc; [reflexivity|].
  cbn [sortBy fold_right]. fold (sortBy cmp l). rewrite insertBy_filter.
  - cbn [List.filter]. rewrite IH by (intros; apply Hc; now right). reflexivity.
  - intros y Hy. apply Hc; [now left | right; now apply sortBy_In in Hy].
Qed.

Lemma sortBy_map {A B : Type} (f : A -> B) (cmp : A -> A -> Z) (cmp' : B -> B -> Z) (l : list A) :
  (forall a b, cmp' (f a) (f b) = cmp a b) ->
  map f (sortBy cmp l) = sortBy cmp' (map f l).
Proof.
  intros Hc. induction l as [|a l IH]; [reflexivity|].
  cbn [sortBy fold_right map]. fold (sortBy cmp l). fold (sortBy cmp' (map f l)).
  rewrite <- IH. generalize (sortBy cmp l) as s. clear IH.
  induction s as [|y s IHs]; [reflexivity|]. cbn [insertBy map].
  rewrite Hc. destruct (cmp a y <=? 0)%Z; cbn [map]; [reflexivity | now rewrite IHs].
Qed.

Lemma StronglySorted_app_inv {A : Type} (R : A -> A -> Prop) (l1 l2 : list A) :
  StronglySorted R (l1 ++ l2)%list ->
  forall a b, In a l1 -> In b l2 -> R a b.
Proof.
  induction l1 as [|x l1 IH]; intros Hs a b Ha Hb; [destruct Ha|].
  cbn in Hs. apply StronglySorted_inv in Hs. destruct Hs as [Hs Hx].
  destruct Ha as [<- | Ha]; [|now apply IH].
  rewrite List.Forall_forall in Hx. apply Hx, in_or_app. now right.
Qed.

(** ** Aggregation index: groups, order, recency *)

Section LoadData.

Variable newDate : string -> option JsDate.

Lemma byDateDesc_key (l : list PrEintraege) :
  (forall e, In e l -> entryTime newDate e <> None) ->
  forall a b, In a l -> In b l ->
  byDateDesc newDate a b = (- timeOf newDate a - - timeOf newDate b)%Z.
Proof.
  intros Hv a b Ha Hb. unfold byDateDesc, timeOf.
  pose proof (Hv a Ha) as Va. pose proof (Hv b Hb) as Vb.
  destruct (entryTime newDate a); [|congruence].
  destruct (entryTime newDate b); [|congruence]. cbn. lia.
Qed.

(** X6. [loadData] makes one aggregate per exercise, in the order of the
    exercise list.  The [prs] of an exercise are the fetched entries whose
    reference resolves to its id, each as often as fetched; an entry is in
    the [prs] of exercises of one id only; and an exercise whose id is not 24
    hexadecimal characters gets no entry at all. *)
Theorem loadData_groups (uebungen : list Uebungen) (prEintraege : list PrEintraege) :
  let st := loadData newDate uebungen prEintraege in
  map exercise (exercises st) = uebungen
  /\ (forall x, In x (exercises st) ->
        Permutation (prs x) (List.filter (refersTo (exercise x)) prEintraege))
  /\ (forall x e, In x (exercises st) ->
        (In e (prs x) <->
         In e prEintraege
         /\ extractRecordId (exercise_id (pr_fields e)) = Some (record_id (exercise x))))
  /\ (forall x y e, In x (exercises st) -> In y (exercises st) ->
        In e (prs x) -> In e (prs y) ->
        record_id (exercise x) = record_id (exercise y))
  /\ (forall x, In x (exercises st) ->
        String.length (record_id (exercise x)) <> 24%nat
        \/ allHex (record_id (exercise x)) = false ->
        prs x = [] /\ bestKg x = None /\ bestReps x = None /\ lastPR x = None).
Proof.
  intros st.
  assert (Hx : forall x, In x (exercises st) ->
                 exists u, In u uebungen /\ x = withPRs newDate prEintraege u).
  { intros x Hin. cbn in Hin. apply in_map_iff in Hin. destruct Hin as (u & <- & Hu). eauto. }
  split; [|split; [|split; [|split]]].
  - cbn. rewrite map_map. cbn. apply map_id.
  - intros x Hin. destruct (Hx x Hin) as (u & _ & ->). cbn. apply sortBy_Permutation.
  - intros x e Hin. destruct (Hx x Hin) as (u & _ & ->). apply In_prs.
  - intros x y e Hxi Hyi Hex Hey.
    destruct (Hx x Hxi) as (u & _ & ->). destruct (Hx y Hyi) as (v & _ & ->).
    apply In_prs in Hex. apply In_prs in Hey. cbn. destruct Hex as [_ E1], Hey as [_ E2].
    congruence.
  - intros x Hin Hbad. destruct (Hx x Hin) as (u & _ & ->).
    assert (Hnil : List.filter (refersTo u) prEintraege = []).
    { destruct (List.filter (refersTo u) prEintraege) as [|e l] eqn:F; [reflexivity|].
      exfalso. assert (He : In e (List.filter (refersTo u) prEintraege)) by (rewrite F; now left).
      apply filter_In in He. destruct He as [_ He]. unfold refersTo in He.
      destruct (extractRecordId (exercise_id (pr_fields e))) as [k|] eqn:X; [|discriminate].
      apply String.eqb_eq in He. subst k.
      destruct (exercise_id (pr_fields e)) as [url|]; [|discriminate].
      apply extractRecordId_suffix_of in X. destruct X as (Hl & Hh & _).
      cbn in Hbad. destruct Hbad; congruence. }
    unfold withPRs. rewrite Hnil. cbn. repeat split; reflexivity.
Qed.

(** X7. When the dates of the fetched entries parse, the [prs] of an
    exercise are in descending order of date, entries of one date in the
    order they were fetched; [lastPR] is their first, an entry that no other
    of the exercise is more recent than, and is absent exactly when no entry
    resolves to the exercise. *)
Theorem prs_newest_first (prEintraege : list PrEintraege) (ex : Uebungen) :
  (forall e, In e prEintraege -> entryTime newDate e <> None) ->
  let x := withPRs newDate prEintraege ex in
  StronglySorted (fun a b => (timeOf newDate b <= timeOf newDate a)%Z) (prs x)
  /\ (forall t, List.filter (fun e => timeOf newDate e =? t)%Z (prs x)
                = List.filter (fun e => timeOf newDate e =? t)%Z
                    (List.filter (refersTo ex) prEintraege))
  /\ lastPR x = head (prs x)
  /\ (forall l e, lastPR x = Some l -> In e (prs x) ->
        (timeOf newDate e <= timeOf newDate l)%Z)
  /\ (lastPR x = None <-> forall e, In e prEintraege -> refersTo ex e = false).
Proof.
  intros Hv x. set (g := List.filter (refersTo ex) prEintraege).
  assert (Hg : forall e, In e g -> entryTime newDate e <> None)
    by (intros e He; apply Hv; apply filter_In in He; tauto).
  pose proof (byDateDesc_key g Hg) as Hk.
  assert (Hs : StronglySorted (fun a b => (timeOf newDate b <= timeOf newDate a)%Z) (prs x)).
  { pose proof (sortBy_sorted (fun e => (- timeOf newDate e)%Z) (byDateDesc newDate) g Hk) as S.
    cbn [prs x withPRs]. fold g. eapply StronglySorted_ind with
      (P := fun l => StronglySorted (fun a b => (timeOf newDate b <= timeOf newDate a)%Z) l);
      [constructor | | exact S].
    intros a l _ IH Ha. constructor; [exact IH|].
    rewrite List.Forall_forall in Ha |- *. intros z Hz. specialize (Ha z Hz). cbn in Ha. lia. }
  split; [exact Hs|]. split; [|split; [reflexivity|split]].
  - intros t. cbn [prs x withPRs]. fold g.
    pose proof (sortBy_stable (fun e => (- timeOf newDate e)%Z) (byDateDesc newDate) (- t) g Hk) as St.
    assert (Hf : forall l : list PrEintraege,
               List.filter (fun e => (- timeOf newDate e =? - t)%Z) l
               = List.filter (fun e => (timeOf newDate e =? t)%Z) l).
    { intros l. apply filter_ext. intros e.
      destruct (timeOf newDate e =? t)%Z eqn:E.
      - apply Z.eqb_eq in E. apply Z.eqb_eq. lia.
      - apply Z.eqb_neq in E. apply Z.eqb_neq. lia. }
    now rewrite !Hf in St.
  - intros l e Hl He. cbn [lastPR x withPRs] in Hl. fold g in Hl.
    change (sortBy (byDateDesc newDate) g) with (prs x) in Hl.
    destruct (prs x) as [|h t]; [discriminate|]. cbn in Hl. injection Hl as ->.
    apply StronglySorted_inv in Hs. destruct Hs as [_ Hh].
    destruct He as [<- | He]; [lia|]. rewrite List.Forall_forall in Hh. now apply Hh.
  - cbn [lastPR x withPRs]. fold g. split.
    + intros Hn e He. destruct (refersTo ex e) eqn:R; [exfalso | reflexivity].
      assert (Hin : In e (sortBy (byDateDesc newDate) g))
        by (apply sortBy_In; apply filter_In; auto).
      destruct (sortBy (byDateDesc newDate) g); [destruct Hin | discriminate].
    + intros Hall. assert (g = []) as ->; [|reflexivity].
      destruct g as [|e l] eqn:G; [reflexivity|]. exfalso.
      assert (He : In e g) by (rewrite G; now left).
      apply filter_In in He. destruct He as [He R]. rewrite Hall in R by exact He. discriminate.
Qed.

End LoadData.

Lemma prs_newest_first_witness :
  let x := withPRs Utc.newDate fourWeeks exBench in
  lastPR x = Some (logged "p5" idBench "2025-03-19" 100 6)
  /\ forall e, In e (prs x) -> (timeOf Utc.newDate e <= 1742342400000)%Z.
Proof.
  cbv zeta. split; [reflexivity|].
  destruct (prs_newest_first Utc.newDate fourWeeks exBench) as (_ & _ & _ & H & _).
  - intros e He. repeat (destruct He as [<-|He]; [vm_compute; discriminate|]). destruct He.
  - intros e He. apply (H (logged "p5" idBench "2025-03-19" 100 6) e); [reflexivity | exact He].
Defined.

Section RecentPRs.

Variable newDate : string -> option JsDate.

(** X8. The state's [allPrEntries] is the fetched list reordered by
    descending date, and the recency feed is its first ten entries (all of
    them when there are fewer): when the dates parse, no entry left out of
    the feed is more recent than one in it.  Each entry of the feed carries
    the name of the first exercise its reference resolves to, and
    'Unbekannte Übung' when it resolves to no exercise or the exercise has no
    name. *)
Theorem recentPRs_feed (uebungen : list Uebungen) (prEintraege : list PrEintraege) :
  (forall e, In e prEintraege -> entryTime newDate e <> None) ->
  let st := loadData newDate uebungen prEintraege in
  Permutation (allPrEntries st) prEintraege
  /\ StronglySorted (fun a b => (timeOf newDate b <= timeOf newDate a)%Z) (allPrEntries st)
  /\ map fst (recentPRs st) = take 10 (allPrEntries st)
  /\ length (recentPRs st) = Nat.min 10 (length prEintraege)
  /\ (forall pr e, In pr (map fst (recentPRs st)) -> In e (drop 10 (allPrEntries st)) ->
        (timeOf newDate e <= timeOf newDate pr)%Z)
  /\ (forall pr nm, In (pr, nm) (recentPRs st) ->
        (forall u, In u uebungen ->
           Some (record_id u) <> extractRecordId (exercise_id (pr_fields pr))) ->
        nm = "Unbekannte Übung")
  /\ (forall pr nm, In (pr, nm) (recentPRs st) ->
        (exists u, In u uebungen
                   /\ Some (record_id u) = extractRecordId (exercise_id (pr_fields pr))) ->
        exists u, In u uebungen
                  /\ Some (record_id u) = extractRecordId (exercise_id (pr_fields pr))
                  /\ nm = orText (name (fields u)) "Unbekannte Übung").
Proof.
  intros Hv st.
  assert (Hs : StronglySorted (fun a b => (timeOf newDate b <= timeOf newDate a)%Z)
                 (allPrEntries st)).
  { pose proof (sortBy_sorted (fun e => (- timeOf newDate e)%Z) (byDateDesc newDate)
                  prEintraege (byDateDesc_key newDate prEintraege Hv)) as S.
    cbn [allPrEntries st loadData].
    eapply StronglySorted_ind with
      (P := fun l => StronglySorted (fun a b => (timeOf newDate b <= timeOf newDate a)%Z) l);
      [constructor | | exact S].
    intros a l _ IH Ha. constructor; [exact IH|].
    rewrite List.Forall_forall in Ha |- *. intros z Hz. specialize (Ha z Hz). cbn in Ha. lia. }
  assert (Hm : map fst (recentPRs st) = take 10 (allPrEntries st))
    by (cbn; rewrite map_map; cbn; apply map_id).
  assert (Hin : forall pr nm, In (pr, nm) (recentPRs st) ->
            nm = orText
                   (List.find (fun ex => bool_decide
                      (Some (record_id ex) = extractRecordId (exercise_id (pr_fields pr))))
                      uebungen ≫= fun ex => name (fields ex))
                   "Unbekannte Übung").
  { intros pr nm H. cbn in H. apply in_map_iff in H. destruct H as (pr' & [= <- <-] & _).
    reflexivity. }
  split; [cbn; apply sortBy_Permutation|]. split; [exact Hs|]. split; [exact Hm|].
  split; [|split; [|split]].
  - rewrite <- (length_map fst), Hm, length_take. cbn [allPrEntries st loadData].
    rewrite sortBy_length. lia.
  - intros pr e Hp He. rewrite Hm in Hp. rewrite <- (take_drop 10 (allPrEntries st)) in Hs.
    apply (StronglySorted_app_inv _ _ _ Hs pr e Hp He).
  - intros pr nm H Hno. rewrite (Hin pr nm H).
    destruct (List.find _ uebungen) as [u|] eqn:F; [|reflexivity].
    apply find_some in F. destruct F as [Hu Hb]. apply bool_decide_eq_true in Hb.
    exfalso. exact (Hno u Hu Hb).
  - intros pr nm H (u & Hu & Eu). rewrite (Hin pr nm H).
    destruct (List.find _ uebungen) as [v|] eqn:F.
    + apply find_some in F. destruct F as [Hv' Hb]. apply bool_decide_eq_true in Hb.
      exists v. auto.
    + exfalso. apply (find_none _ _ F u) in Hu. apply bool_decide_eq_false in Hu. congruence.
Qed.

End RecentPRs.

Lemma recentPRs_feed_witness :
  map snd (recentPRs (loadData Utc.newDate [exBench] fourWeeks))
  = ["Bankdruecken"; "Unbekannte Übung"; "Bankdruecken"; "Unbekannte Übung";
     "Bankdruecken"; "Bankdruecken"]
  /\ length (recentPRs (loadData Utc.newDate [exBench] fourWeeks)) = 6%nat.
Proof.
  split; [reflexivity|].
  destruct (recentPRs_feed Utc.newDate [exBench] fourWeeks) as (_ & _ & _ & H & _).
  - intros e He. repeat (destruct He as [<-|He]; [vm_compute; discriminate|]). destruct He.
  - exact H.
Defined.

(** ** Calendar: growth, order of the entries, day detail *)

Lemma heat_of_count (es : list PrEintraege) (d : string) :
  getHeatmapIntensity (prsByDate es) d = stepIntensity (length (entriesOn d es)).
Proof.
  unfold getHeatmapIntensity. rewrite prsByDate_lookup.
  destruct (entriesOn d es) as [|a [|b [|c [|x [|y l]]]]]; reflexivity.
Qed.

Lemma stepIntensity_mono (n m : nat) :
  (n <= m)%nat -> (intensityRank (stepIntensity n) <= intensityRank (stepIntensity m))%nat.
Proof.
  intros H.
  destruct n as [|[|[|[|[|n]]]]]; destruct m as [|[|[|[|[|m]]]]]; cbn; lia.
Qed.

(** X9. The heatmap only grows: further entries never lower the intensity
    of any date, an entry of another date (or without a date) leaves a
    date's intensity as it is, and the intensity does not depend on the order
    of the entries. *)
Theorem heatmap_growth (es more : list PrEintraege) (d : string) :
  (intensityRank (getHeatmapIntensity (prsByDate es) d)
   <= intensityRank (getHeatmapIntensity (prsByDate (es ++ more)) d))%nat
  /\ ((forall e, In e more -> ~ loggedOn d e) ->
      getHeatmapIntensity (prsByDate (es ++ more)) d = getHeatmapIntensity (prsByDate es) d)
  /\ (forall es', Permutation es es' ->
      getHeatmapIntensity (prsByDate es') d = getHeatmapIntensity (prsByDate es) d).
Proof.
  rewrite !heat_of_count. unfold entriesOn. rewrite filter_app, length_app.
  split; [apply stepIntensity_mono; lia|]. split.
  - intros Hno. assert (filter (loggedOn d) more = []) as ->.
    { induction more as [|e more IH]; [reflexivity|]. rewrite filter_cons.
      destruct (decide (loggedOn d e)) as [H|_]; [exfalso; apply (Hno e); [now left | exact H]|].
      apply IH. intros; apply Hno; now right. }
    cbn. now rewrite Nat.add_0_r.
  - intros es' P. rewrite !heat_of_count. unfold entriesOn. now rewrite <- P.
Qed.

(** X10. The detail of a day lists the entries logged on that day, in the
    order of the entry list; the day's button is enabled exactly when the
    day has an entry, which is exactly when its intensity is not [none]; and
    without a selected day, or for a day without entries, the detail is
    empty. *)
Theorem day_detail (es : list PrEintraege) (exs : list ExerciseWithPRs) (d : string) :
  map fst (prsForSelectedDate (prsByDate es) exs (Some d)) = entriesOn d es
  /\ (hasPRs (prsByDate es) d = true <-> exists e, In e es /\ loggedOn d e)
  /\ (hasPRs (prsByDate es) d = true <-> getHeatmapIntensity (prsByDate es) d <> none)
  /\ (hasPRs (prsByDate es) d = false -> prsForSelectedDate (prsByDate es) exs (Some d) = [])
  /\ prsForSelectedDate (prsByDate es) exs None = [].
Proof.
  assert (Hin : (exists e, In e es /\ loggedOn d e) <-> entriesOn d es <> []).
  { unfold entriesOn. split.
    - intros (e & He & Hl) Hnil.
      assert (e ∈ filter (loggedOn d) es)
        by (apply list_elem_of_filter; split; [exact Hl | now apply list_elem_of_In]).
      rewrite Hnil in H. now apply not_elem_of_nil in H.
    - intros Hne. destruct (filter (loggedOn d) es) as [|e l] eqn:F; [congruence|].
      assert (He : e ∈ filter (loggedOn d) es) by (rewrite F; apply list_elem_of_here).
      apply list_elem_of_filter in He. destruct He as [Hl He].
      exists e. split; [now apply list_elem_of_In | exact Hl]. }
  unfold prsForSelectedDate, hasPRs. rewrite heat_of_count, prsByDate_lookup, Hin.
  destruct (entriesOn d es) as [|a l] eqn:E.
  - cbn. repeat split; try congruence; try discriminate; intros H; now contradiction H.
  - split; [cbn [default from_option id]; rewrite map_map; cbn; now rewrite map_id|].
    split; [cbn; split; [discriminate | reflexivity]|].
    split; [|split; [cbn; discriminate | reflexivity]].
    cbn [length]. split; [|reflexivity]. intros _.
    destruct l as [|b [|c [|x [|y l]]]]; discriminate.
Qed.

(** ** Sessions *)

Lemma uniqueDates_snoc (es : list PrEintraege) (e : PrEintraege) :
  uniqueDates (es ++ [e]) =
    if truthy (dateKey e) then setAdd (uniqueDates es) (dateKey e) else uniqueDates es.
Proof.
  unfold uniqueDates, newSet. rewrite map_app, List.filter_app, fold_left_app. cbn.
  destruct (truthy (dateKey e)); reflexivity.
Qed.

(** X11. [totalSessions] counts dates, not entries: it never exceeds the
    number of entries, and a further entry adds one session exactly when it
    has a date that no earlier entry has. *)
Theorem totalSessions_counts (es : list PrEintraege) :
  (totalSessions es <= length es)%nat
  /\ forall e,
       totalSessions (es ++ [e]) =
         (totalSessions es
          + if truthy (dateKey e) && negb (bool_decide (dateKey e ∈ uniqueDates es))
            then 1 else 0)%nat.
Proof.
  split.
  - unfold totalSessions. rewrite <- (length_map dateKey es).
    apply List.NoDup_incl_length; [apply NoDup_ListNoDup, NoDup_uniqueDates|].
    intros k Hk. unfold uniqueDates, newSet in Hk. apply fold_setAdd_In in Hk.
    destruct Hk as [[] | Hk]. apply filter_In in Hk. tauto.
  - intros e. unfold totalSessions. rewrite uniqueDates_snoc.
    destruct (truthy (dateKey e)); cbn [andb]; [|lia].
    unfold setAdd. case_bool_decide; cbn [negb]; [lia|].
    rewrite length_app. cbn. lia.
Qed.

Example totalSessions_same_day :
  totalSessions fourWeeks = 5%nat /\ length fourWeeks = 6%nat.
Proof. split; reflexivity. Qed.

(** ** Statistics and the order of the entries *)

Lemma streakLoop_ext (w1 w2 : gmap (option Z) nat) :
  (forall key, trained w1 key = trained w2 key) ->
  forall n y w s, streakLoop n w1 y w s = streakLoop n w2 y w s.
Proof.
  intros H. induction n as [|n IH]; intros y w s; cbn [streakLoop]; [reflexivity|].
  rewrite H. destruct (trained w2 (y * 100 + w)); [|reflexivity].
  destruct (w - 1 <? 1)%Z; apply IH.
Qed.

Lemma currentStreak_ext (w1 w2 : gmap (option Z) nat) (now : JsDate) :
  (forall key, trained w1 key = trained w2 key) ->
  currentStreak w1 now = currentStreak w2 now.
Proof.
  intros H. unfold currentStreak. cbv zeta. rewrite H.
  apply streakLoop_ext, H.
Qed.

Lemma uniqueDates_Permutation (es es' : list PrEintraege) :
  Permutation es es' -> Permutation (uniqueDates es) (uniqueDates es').
Proof.
  intros P. apply NoDup_Permutation; try apply NoDup_uniqueDates.
  intros k. rewrite !list_elem_of_In, !In_uniqueDates. split; intros (d & e & -> & He & Hl); exists d, e.
  - split; [reflexivity|]. split; [now apply (Permutation_in _ P) | exact Hl].
  - split; [reflexivity|]. split; [now apply (Permutation_in _ (Permutation_sym P)) | exact Hl].
Qed.

Section OrderOfEntries.

Variable newDate : string -> option JsDate.

(** X12. The session count, the trained weeks and the streak do not depend
    on the order of the entries; in particular they are the same on the
    fetched list and on the list that [loadData] leaves sorted in the
    state. *)
Theorem stats_order_independent (es es' : list PrEintraege) (now : JsDate) :
  Permutation es es' ->
  totalSessions es = totalSessions es'
  /\ (forall key, trained (weeklyTraining newDate (uniqueDates es)) key
                  = trained (weeklyTraining newDate (uniqueDates es')) key)
  /\ currentStreak (weeklyTraining newDate (uniqueDates es)) now
     = currentStreak (weeklyTraining newDate (uniqueDates es')) now.
Proof.
  intros P. pose proof (uniqueDates_Permutation es es' P) as Pu.
  assert (Ht : forall key, trained (weeklyTraining newDate (uniqueDates es)) key
                           = trained (weeklyTraining newDate (uniqueDates es')) key).
  { intros key.
    destruct (trained (weeklyTraining newDate (uniqueDates es')) key) eqn:T.
    - apply trained_weeklyTraining in T. apply trained_weeklyTraining.
      destruct T as (d & Hd & Hr). exists d. split; [|exact Hr].
      now apply (Permutation_in _ (Permutation_sym Pu)).
    - destruct (trained (weeklyTraining newDate (uniqueDates es)) key) eqn:T'; [|reflexivity].
      apply trained_weeklyTraining in T'. destruct T' as (d & Hd & Hr).
      rewrite <- T. symmetry. apply trained_weeklyTraining. exists d. split; [|exact Hr].
      now apply (Permutation_in _ Pu). }
  split; [unfold totalSessions; now apply Permutation_length|].
  split; [exact Ht | now apply currentStreak_ext].
Qed.

End OrderOfEntries.

Lemma stats_order_independent_witness :
  totalSessions (allPrEntries (loadData Utc.newDate [exBench; exSquat] fourWeeks))
  = totalSessions fourWeeks.
Proof.
  apply (stats_order_independent Utc.newDate _ fourWeeks wednesday_2025_03_19).
  apply sortBy_Permutation.
Defined.

(** ** Frequencies and the top exercises *)

Lemma bump_pushTo (groups : list (string * list PrEintraege)) (k : string) (pr : PrEintraege) :
  map (fun kg => (fst kg, length (snd kg))) (pushTo groups k pr)
  = bump (map (fun kg => (fst kg, length (snd kg))) groups) k.
Proof.
  induction groups as [|[j g] rest IH]; cbn [pushTo bump map fst snd]; [reflexivity|].
  destruct (String.eqb j k); cbn [map fst snd].
  - rewrite length_app. cbn. now rewrite Nat.add_1_r.
  - now rewrite IH.
Qed.

(** The frequency of an id is the size of its group. *)
Lemma exerciseFrequency_groups (es : list PrEintraege) :
  exerciseFrequency es = map (fun kg => (fst kg, length (snd kg))) (entriesByExercise es).
Proof.
  unfold exerciseFrequency, entriesByExercise.
  change (@nil (string * nat))
    with (map (fun kg : string * list PrEintraege => (fst kg, length (snd kg))) []).
  generalize (@nil (string * list PrEintraege)) as groups.
  induction es as [|e es IH]; intros groups; cbn [fold_left]; [reflexivity|].
  rewrite <- IH. f_equal. unfold pushEntry.
  destruct (extractRecordId (exercise_id (pr_fields e))) as [[|c s]|]; try reflexivity.
  symmetry. apply bump_pushTo.
Qed.

Lemma bump_sum (freq : list (string * nat)) (k : string) :
  list_sum (map snd (bump freq k)) = S (list_sum (map snd freq)).
Proof.
  unfold list_sum. induction freq as [|[j n] rest IH]; cbn [bump map snd fold_right];
    [reflexivity|].
  destruct (String.eqb j k); cbn [map snd fold_right]; [reflexivity|]. rewrite IH. lia.
Qed.

Lemma exerciseFrequency_sum (es : list PrEintraege) :
  list_sum (map snd (exerciseFrequency es))
  = length (List.filter (fun e => bool_decide (is_Some (extractRecordId (exercise_id (pr_fields e))))) es).
Proof.
  unfold exerciseFrequency.
  assert (G : forall freq,
    list_sum (map snd (fold_left
      (fun freq pr =>
         match extractRecordId (exercise_id (pr_fields pr)) with
         | Some (String c s) => bump freq (String c s)
         | _ => freq
         end) es freq))
    = (list_sum (map snd freq)
       + length (List.filter (fun e => bool_decide (is_Some (extractRecordId (exercise_id (pr_fields e))))) es))%nat).
  { induction es as [|e es IH]; intros freq; cbn [fold_left List.filter]; [cbn; lia|].
    rewrite IH. destruct (extractRecordId (exercise_id (pr_fields e))) as [[|c s]|] eqn:X.
    - exfalso. now apply (extractRecordId_nonempty _ _ X).
    - rewrite bump_sum, bool_decide_eq_true_2 by eauto. cbn. lia.
    - rewrite bool_decide_eq_false_2 by (intros [? [=]]). lia. }
  now rewrite G.
Qed.

(** X13. [exerciseFrequency] has one row per resolved id, and the row of an
    id holds the number of entries whose reference resolves to it, at least
    one; the counts add up to the number of entries with a reference that
    resolves. *)
Theorem exerciseFrequency_counts (es : list PrEintraege) :
  NoDup (map fst (exerciseFrequency es))
  /\ (forall k n, In (k, n) (exerciseFrequency es) <->
        n = length (List.filter (resolvesTo k) es) /\ n <> 0%nat)
  /\ list_sum (map snd (exerciseFrequency es))
     = length (List.filter
                 (fun e => bool_decide (is_Some (extractRecordId (exercise_id (pr_fields e))))) es).
Proof.
  destruct (entriesByExercise_groups es) as [ND G].
  split; [|split; [|apply exerciseFrequency_sum]].
  - rewrite exerciseFrequency_groups, map_map. cbn [fst]. exact ND.
  - intros k n. rewrite exerciseFrequency_groups, in_map_iff. split.
    + intros ([k' g] & [= -> <-] & Hin). apply G in Hin. destruct Hin as [-> Hne].
      split; [reflexivity|]. cbn. destruct (List.filter (resolvesTo k) es); [congruence | discriminate].
    + intros [-> Hne]. exists (k, List.filter (resolvesTo k) es). split; [reflexivity|].
      apply G. split; [reflexivity|]. intros E. rewrite E in Hne. now apply Hne.
Qed.

Lemma NoDup_fst_functional {A B : Type} (l : list (A * B)) (k : A) (n m : B) :
  NoDup (map fst l) -> In (k, n) l -> In (k, m) l -> n = m.
Proof.
  induction l as [|[j x] l IH]; intros ND Hn Hm; [destruct Hn|].
  cbn [map fst] in ND. apply NoDup_cons in ND. destruct ND as [Hj ND].
  assert (Hfst : forall y, In (j, y) l -> False).
  { intros y Hy. apply Hj, list_elem_of_In, in_map_iff. exists (j, y). auto. }
  destruct Hn as [En | Hn], Hm as [Em | Hm].
  - congruence.
  - exfalso. injection En as -> _. eauto.
  - exfalso. injection Em as -> _. eauto.
  - now apply IH.
Qed.

Lemma In_take {A : Type} (n : nat) (l : list A) (x : A) : In x (take n l) -> In x l.
Proof.
  revert n. induction l as [|y l IH]; intros [|n] H; cbn in H; try contradiction.
  destruct H as [H|H]; [now left | right; eauto].
Qed.

Lemma filter_sublist {A : Type} (f : A -> bool) (l : list A) : sublist (List.filter f l) l.
Proof.
  induction l as [|x l IH]; cbn; [constructor|].
  destruct (f x); now constructor.
Qed.

(** X14. [topExerciseIds] are at most five different ids of the frequency
    table, all of them when the table has at most five rows, and no id left
    out is more frequent than one taken.  [topExercises] are the exercises
    with one of these ids, in the order of the exercise list, and at most
    five when the exercises have different ids. *)
Theorem topExercises_top5 (es : list PrEintraege) (exs : list ExerciseWithPRs) :
  (length (topExerciseIds es) <= 5)%nat
  /\ NoDup (topExerciseIds es)
  /\ (forall k, In k (topExerciseIds es) -> exists n, In (k, n) (exerciseFrequency es))
  /\ ((length (exerciseFrequency es) <= 5)%nat ->
      forall k n, In (k, n) (exerciseFrequency es) -> In k (topExerciseIds es))
  /\ (forall k n k' n',
        In (k, n) (exerciseFrequency es) -> In (k', n') (exerciseFrequency es) ->
        In k (topExerciseIds es) -> ~ In k' (topExerciseIds es) -> (n' <= n)%nat)
  /\ (forall x, In x (topExercises es exs) <->
        In x exs /\ In (record_id (exercise x)) (topExerciseIds es))
  /\ sublist (topExercises es exs) exs
  /\ (NoDup (map (fun x => record_id (exercise x)) exs) ->
      (length (topExercises es exs) <= 5)%nat).
Proof.
  set (cmp := fun a b : string * nat => (Z.of_nat (snd b) - Z.of_nat (snd a))%Z).
  set (sorted := sortBy cmp (exerciseFrequency es)).
  assert (Ht : topExerciseIds es = map fst (take 5 sorted)) by reflexivity.
  assert (P : Permutation sorted (exerciseFrequency es)) by apply sortBy_Permutation.
  destruct (exerciseFrequency_counts es) as (ND & _ & _).
  assert (NDs : NoDup (map fst sorted)) by (now rewrite P).
  assert (Hs : StronglySorted (fun a b => (snd b <= snd a)%nat) sorted).
  { pose proof (sortBy_sorted (fun a : string * nat => (- Z.of_nat (snd a))%Z) cmp
                  (exerciseFrequency es)) as S.
    eapply StronglySorted_ind with
      (P := fun l => StronglySorted (fun a b : string * nat => (snd b <= snd a)%nat) l);
      [constructor | | apply S; intros; unfold cmp; lia].
    intros a l _ IH Ha. constructor; [exact IH|].
    rewrite List.Forall_forall in Ha |- *. intros z Hz. specialize (Ha z Hz). cbn in Ha. lia. }
  assert (Len : (length (topExerciseIds es) <= 5)%nat)
    by (rewrite Ht, length_map, length_take; lia).
  assert (NDt : NoDup (topExerciseIds es)).
  { rewrite Ht. change (map fst (take 5 sorted)) with (fst <$> take 5 sorted).
    rewrite fmap_take. eapply sublist_NoDup; [exact NDs | apply sublist_take]. }
  assert (Hmem : forall x, In x (topExercises es exs) <->
                   In x exs /\ In (record_id (exercise x)) (topExerciseIds es)).
  { intros x. unfold topExercises. rewrite filter_In, bool_decide_eq_true, list_elem_of_In.
    reflexivity. }
  split; [exact Len|]. split; [exact NDt|].
  split; [|split; [|split; [|split; [exact Hmem|split; [apply filter_sublist|]]]]].
  - intros k Hk. rewrite Ht in Hk. apply in_map_iff in Hk. destruct Hk as ([k' n] & <- & Hin).
    exists n. apply (Permutation_in _ P). now apply In_take in Hin.
  - intros Hl k n Hin. rewrite Ht, take_ge by (unfold sorted; rewrite sortBy_length; lia).
    apply in_map_iff. exists (k, n). split; [reflexivity|].
    now apply (Permutation_in _ (Permutation_sym P)).
  - intros k n k' n' Hn Hn' Hk Hk'.
    rewrite Ht in Hk. apply in_map_iff in Hk. destruct Hk as ([k0 n0] & E & Hin). cbn in E. subst k0.
    assert (En : n0 = n).
    { apply (NoDup_fst_functional sorted k); [exact NDs | |].
      - now apply In_take in Hin.
      - now apply (Permutation_in _ (Permutation_sym P)). }
    subst n0.
    assert (Hd : In (k', n') (drop 5 sorted)).
    { apply (Permutation_in _ (Permutation_sym P)) in Hn'.
      rewrite <- (take_drop 5 sorted) in Hn'. apply in_app_or in Hn'.
      destruct Hn' as [H|H]; [|exact H]. exfalso. apply Hk'. rewrite Ht.
      apply in_map_iff. exists (k', n'). auto. }
    rewrite <- (take_drop 5 sorted) in Hs.
    apply (StronglySorted_app_inv _ _ _ Hs (k, n) (k', n') Hin Hd).
  - intros NDx.
    assert (Hsub : (length (map (fun x => record_id (exercise x)) (topExercises es exs))
                    <= length (topExerciseIds es))%nat).
    { apply List.NoDup_incl_length.
      - apply NoDup_ListNoDup. eapply sublist_NoDup; [exact NDx|].
        change (map (fun x => record_id (exercise x)) ?l)
          with ((fun x => record_id (exercise x)) <$> l).
        apply fmap_sublist, filter_sublist.
      - intros k Hk. apply in_map_iff in Hk. destruct Hk as (x & <- & Hx).
        now apply Hmem in Hx. }
    rewrite length_map in Hsub. lia.
Qed.

(** ** Strength gain: sign and scale *)

Section StrengthGainSign.

Variable newDate : string -> option JsDate.




End StrengthGainSign.

(** ** Weekly streak: bounds *)

Lemma prevWeek_lt (yw : Z * Z) :
  (1 <= snd yw)%Z -> (bucket (prevWeek yw) < bucket yw)%Z /\ (1 <= snd (prevWeek yw))%Z.
Proof.
  destruct yw as [y w]. unfold prevWeek, bucket. cbn [fst snd]. intros H.
  destruct (w - 1 <? 1)%Z eqn:E; cbn [fst snd].
  - apply Z.ltb_lt in E. lia.
  - apply Z.ltb_ge in E. lia.
Qed.

Section StreakBounds.

Variable newDate : string -> option JsDate.

(** Every week the walk counts has a session date of its own. *)
Lemma countedWeeks_dates (dates : list (option string)) (n : nat) :
  forall yw : Z * Z, (1 <= snd yw)%Z ->
  exists ds : list string,
    length ds = countedWeeks n (weeklyTraining newDate dates) yw
    /\ NoDup ds
    /\ forall d, In d ds ->
         In (Some d) dates
         /\ exists key, weekKeyOf newDate d = Some key /\ (key <= bucket yw)%Z.
Proof.
  induction n as [|n IH]; intros yw Hw; cbn [countedWeeks].
  - exists []. split; [reflexivity|]. split; [constructor | intros d []].
  - destruct (trained (weeklyTraining newDate dates) (bucket yw)) eqn:T.
    + apply trained_weeklyTraining in T. destruct T as (d & Hd & _ & Hk).
      destruct (prevWeek_lt yw Hw) as [Hlt Hw'].
      destruct (IH (prevWeek yw) Hw') as (ds & Hlen & ND & Hds).
      exists (d :: ds). split; [cbn; now rewrite Hlen|]. split.
      * apply NoDup_cons. split; [|exact ND]. intros Hin%list_elem_of_In.
        destruct (Hds d Hin) as (_ & key & Hkey & Hle). rewrite Hk in Hkey.
        injection Hkey as <-. lia.
      * intros d' [<- | Hin].
        -- split; [exact Hd|]. exists (bucket yw). split; [exact Hk | lia].
        -- destruct (Hds d' Hin) as (H1 & key & Hkey & Hle).
           split; [exact H1|]. exists key. split; [exact Hkey | lia].
    + exists []. split; [reflexivity|]. split; [constructor | intros d []].
Qed.

(** X16. The streak never exceeds the number of sessions: every week key
    [getFullYear * 100 + getWeek] it counts has a session date of its own.
    And it is 0 when no session date has the key of [now] or the key the
    walk steps back to from it ([week - 1], and week 52 of the year before
    from week 1), whatever the other sessions.  The keys are the code's: at
    a turn of the year two calendar weeks can share one. *)
Theorem currentStreak_bounds (es : list PrEintraege) (now : JsDate) :
  (1 <= getWeek now <= 53)%Z -> (1 <= getFullYear now)%Z ->
  let weekly := weeklyTraining newDate (uniqueDates es) in
  let cur := (getFullYear now, getWeek now) in
  (currentStreak weekly now <= totalSessions es)%nat
  /\ (trained weekly (bucket cur) = false ->
      trained weekly (bucket (prevWeek cur)) = false ->
      currentStreak weekly now = 0%nat).
Proof.
  intros Hw Hy weekly cur.
  rewrite (currentStreak_countedWeeks weekly now Hw Hy). fold cur. split.
  - set (start := if trained weekly (bucket cur) then cur else prevWeek cur).
    assert (Hs : (1 <= snd start)%Z).
    { unfold start. destruct (trained weekly (bucket cur)); [cbn; lia|].
      apply prevWeek_lt. cbn. lia. }
    destruct (countedWeeks_dates (uniqueDates es) 52 start Hs) as (ds & Hlen & ND & Hds).
    fold weekly in Hlen. rewrite <- Hlen. unfold totalSessions.
    rewrite <- (length_map Some ds). apply List.NoDup_incl_length.
    + apply NoDup_ListNoDup. change (map Some ds) with (Some <$> ds).
      apply NoDup_fmap; [apply _ | exact ND].
    + intros k Hk. apply in_map_iff in Hk. destruct Hk as (d & <- & Hd). now apply Hds.
  - intros T0 T1. rewrite T0. cbn [countedWeeks]. now rewrite T1.
Qed.

End StreakBounds.

Lemma currentStreak_bounds_witness :
  (currentStreak (weeklyTraining Utc.newDate (uniqueDates fourWeeks)) wednesday_2025_03_19
   <= totalSessions fourWeeks)%nat.
Proof.
  apply (currentStreak_bounds Utc.newDate fourWeeks wednesday_2025_03_19); cbn; lia.
Defined.

(** ** The ranking of the second dashboard *)

Lemma setKey_fresh (stats : list (string * TopUebung)) (k : string) (v : TopUebung) :
  ~ In k (map fst stats) -> setKey stats k v = (stats ++ [(k, v)])%list.
Proof.
  induction stats as [|[j u] rest IH]; intros H; cbn [setKey app]; [reflexivity|].
  destruct (String.eqb j k) eqn:E.
  - apply String.eqb_eq in E. subst j. exfalso. apply H. now left.
  - rewrite IH; [reflexivity|]. intros Hin. apply H. now right.
Qed.

Lemma uebungStats_init (us : list Uebungen) :
  forall acc : list (string * TopUebung),
  List.NoDup (map fst acc ++ map record_id us) ->
  fold_left
    (fun stats uebung =>
       setKey stats (record_id uebung)
         (mkTopUebung (orText (name (fields uebung)) "Unbenannte Übung") 0 None))
    us acc
  = (acc ++ map (fun u => (record_id u,
                           mkTopUebung (orText (name (fields u)) "Unbenannte Übung") 0 None))
                us)%list.
Proof.
  induction us as [|u us IH]; intros acc ND; cbn [fold_left map].
  - now rewrite app_nil_r.
  - rewrite setKey_fresh.
    + rewrite IH.
      * now rewrite <- app_assoc.
      * rewrite map_app. cbn [map fst]. rewrite <- app_assoc. exact ND.
    + intros Hin. cbn [map] in ND. apply NoDup_remove_2 in ND. apply ND.
      apply in_or_app. now left.
Qed.

Lemma countAt_keys (stats : list (string * TopUebung)) (j : string) (pr : PrEintraege) :
  map fst (countAt stats j pr) = map fst stats.
Proof.
  induction stats as [|[k u] rest IH]; cbn [countAt map fst]; [reflexivity|].
  destruct (String.eqb k j); cbn [map fst]; [reflexivity | now rewrite IH].
Qed.

Lemma countAt_rows (stats : list (string * TopUebung)) (j : string) (pr : PrEintraege) :
  List.NoDup (map fst stats) ->
  map statRow (countAt stats j pr)
  = map (fun r : string * (string * nat) =>
           (fst r, (fst (snd r), (snd (snd r) + if String.eqb (fst r) j then 1 else 0)%nat)))
        (map statRow stats).
Proof.
  rewrite map_map. unfold statRow. cbn [fst snd].
  induction stats as [|[k u] rest IH]; intros ND; cbn [countAt map]; [reflexivity|].
  cbn [map fst] in ND. apply List.NoDup_cons_iff in ND. destruct ND as [Hk ND].
  cbn [fst snd]. destruct (String.eqb k j) eqn:E; cbn [map fst snd].
  - apply String.eqb_eq in E. subst k. cbn [countPR tu_name prCount].
    rewrite Nat.add_1_r. f_equal.
    apply map_ext_in. intros [k' u'] Hin. cbn [fst snd].
    destruct (String.eqb k' j) eqn:E'.
    + apply String.eqb_eq in E'. subst k'. exfalso. apply Hk.
      apply in_map_iff. exists (j, u'). auto.
    + now rewrite Nat.add_0_r.
  - rewrite Nat.add_0_r. f_equal. now apply IH.
Qed.

Lemma counted_rows (es : list PrEintraege) :
  forall stats : list (string * TopUebung),
  List.NoDup (map fst stats) ->
  map statRow
    (fold_left
       (fun stats pr =>
          match extractRecordId (exercise_id (pr_fields pr)) with
          | Some (String c s) => countAt stats (String c s) pr
          | _ => stats
          end)
       es stats)
  = map (fun r : string * (string * nat) =>
           (fst r, (fst (snd r),
                    (snd (snd r) + length (List.filter (resolvesTo (fst r)) es))%nat)))
        (map statRow stats).
Proof.
  induction es as [|e es IH]; intros stats ND; cbn [fold_left List.filter].
  - rewrite map_map. apply map_ext. intros [k u]. unfold statRow. cbn. now rewrite Nat.add_0_r.
  - destruct (extractRecordId (exercise_id (pr_fields e))) as [[|c s]|] eqn:X.
    + exfalso. now apply (extractRecordId_nonempty _ _ X).
    + rewrite IH by (now rewrite countAt_keys). rewrite countAt_rows by exact ND.
      rewrite !map_map. apply map_ext. intros [k u]. cbn [fst snd statRow]. unfold statRow.
      cbn [fst snd]. unfold resolvesTo at 2. rewrite X.
      rewrite (String.eqb_sym (String c s) k).
      destruct (String.eqb k (String c s)); cbn [length]; do 2 f_equal; lia.
    + rewrite IH by exact ND. rewrite !map_map. apply map_ext. intros [k u].
      unfold statRow. cbn [fst snd]. unfold resolvesTo at 2. rewrite X. reflexivity.
Qed.

(** X17. For exercises of different ids, [calculateTopUebungen] ranks the
    exercises themselves: it lists the name and the number of entries of the
    first five exercises in descending order of that number, exercises of
    equal number in the order of the exercise list, exercises without
    entries included. *)
Theorem calculateTopUebungen_ranked (uebungen : list Uebungen) (es : list PrEintraege) :
  List.NoDup (map record_id uebungen) ->
  let ranked := sortBy byCountDesc (map (rowOf es) uebungen) in
  map (fun t => (tu_name t, prCount t)) (calculateTopUebungen uebungen es) = take 5 ranked
  /\ Permutation ranked (map (rowOf es) uebungen)
  /\ StronglySorted (fun a b => (snd b <= snd a)%nat) ranked
  /\ (forall c, List.filter (fun r => (snd r =? c)%nat) ranked
                = List.filter (fun r => (snd r =? c)%nat) (map (rowOf es) uebungen))
  /\ length (calculateTopUebungen uebungen es) = Nat.min 5 (length uebungen).
Proof.
  intros ND ranked.
  assert (Hrows : map (fun t => (tu_name t, prCount t)) (calculateTopUebungen uebungen es)
                  = take 5 ranked).
  { unfold calculateTopUebungen. cbv zeta.
    rewrite (uebungStats_init uebungen []) by exact ND. cbn [app].
    change (map ?f (take 5 ?l)) with (f <$> take 5 l). rewrite fmap_take. f_equal.
    change (?f <$> ?l) with (map f l).
    rewrite (sortBy_map (fun t => (tu_name t, prCount t)) _ byCountDesc) by reflexivity.
    unfold ranked. f_equal.
    transitivity (map snd (map statRow
      (fold_left
         (fun stats pr =>
            match extractRecordId (exercise_id (pr_fields pr)) with
            | Some (String c s) => countAt stats (String c s) pr
            | _ => stats
            end)
         es
         (map (fun u => (record_id u,
                         mkTopUebung (orText (name (fields u)) "Unbenannte Übung") 0 None))
              uebungen)))).
    { rewrite !map_map. reflexivity. }
    rewrite counted_rows by (rewrite map_map; exact ND).
    rewrite !map_map. apply map_ext. intros u. reflexivity. }
  split; [exact Hrows|]. split; [apply sortBy_Permutation|]. split; [|split].
  - pose proof (sortBy_sorted (fun a : string * nat => (- Z.of_nat (snd a))%Z) byCountDesc
                  (map (rowOf es) uebungen)) as S.
    eapply StronglySorted_ind with
      (P := fun l => StronglySorted (fun a b : string * nat => (snd b <= snd a)%nat) l);
      [constructor | | apply S; intros; unfold byCountDesc; lia].
    intros a l _ IH Ha. constructor; [exact IH|].
    rewrite List.Forall_forall in Ha |- *. intros z Hz. specialize (Ha z Hz). cbn in Ha. lia.
  - intros c.
    pose proof (sortBy_stable (fun a : string * nat => (- Z.of_nat (snd a))%Z) byCountDesc
                  (- Z.of_nat c) (map (rowOf es) uebungen)) as St.
    assert (Hf : forall l : list (string * nat),
               List.filter (fun r => (- Z.of_nat (snd r) =? - Z.of_nat c)%Z) l
               = List.filter (fun r => (snd r =? c)%nat) l).
    { intros l. apply filter_ext. intros r. destruct (snd r =? c)%nat eqn:E.
      - apply Nat.eqb_eq in E. apply Z.eqb_eq. lia.
      - apply Nat.eqb_neq in E. apply Z.eqb_neq. lia. }
    rewrite !Hf in St. apply St. intros; unfold byCountDesc; lia.
  - rewrite <- (length_map (fun t => (tu_name t, prCount t))), Hrows, length_take.
    unfold ranked. rewrite sortBy_length, length_map. lia.
Qed.

Lemma calculateTopUebungen_ranked_witness :
  map (fun t => (tu_name t, prCount t)) (calculateTopUebungen [exBench; exSquat] fourWeeks)
  = take 5 (sortBy byCountDesc (map (rowOf fourWeeks) [exBench; exSquat])).
Proof.
  apply (calculateTopUebungen_ranked [exBench; exSquat] fourWeeks).
  repeat constructor; cbn; intuition discriminate.
Defined.

(** ** Feedback after a submit *)

Lemma weightPR_excludes_repPR (newWeight newReps : Q) (prior : list PrEintraege) :
  prior <> [] ->
  isWeightPR (analyzePR newWeight newReps prior) = true ->
  isRepPR (analyzePR newWeight newReps prior) = false.
Proof.
  intros Hne Hw.
  destruct (isRepPR (analyzePR newWeight newReps prior)) eqn:Hr; [exfalso | reflexivity].
  pose proof (analyzePR_reps_nonempty newWeight newReps prior Hne) as H. cbv zeta in H.
  destruct (List.filter (sameWeightAs newWeight) prior) as [|e ss] eqn:Hf;
    [destruct H; congruence | clear H].
  assert (Hin : In e prior /\ atWeight newWeight e)
    by (apply In_sameWeight; rewrite Hf; now left).
  destruct Hin as (He & w & Ew & Hwe).
  destruct prior as [|p ps]; [congruence|].
  cbn -[In mathMax] in Hw.
  pose proof (proj1 (Qgtb_mathMax weightOf newWeight p ps) Hw e He) as Hlt. clear Hw. rename Hlt into Hw.
  unfold weightOf in Hw. rewrite Ew in Hw. cbn in Hw. rewrite Hwe in Hw.
  exact (Qlt_irrefl _ Hw).
Qed.

(** X18. The first entry of an exercise is always celebrated with all
    three badges.  With a history, an entry gets at most two badges, never
    'Gewichts-PR' together with 'Rep-PR'; the confetti starts exactly when
    some flag of the analysis is set, and otherwise the toast only says
    'Eingetragen!'. *)
Theorem submitFeedback_badges (newWeight newReps : Q) (prior : list PrEintraege) :
  let a := analyzePR newWeight newReps prior in
  (prior = [] ->
   submitFeedback (Some a) = (true, "Neuer Gewichts-PR + Volumen-PR + Rep-PR! 🎉"))
  /\ (prior <> [] ->
      (length (prTypes a) <= 2)%nat /\ ~ (In "Gewichts-PR" (prTypes a) /\ In "Rep-PR" (prTypes a)))
  /\ (fst (submitFeedback (Some a)) = true <->
      isWeightPR a = true \/ isVolumePR a = true \/ isRepPR a = true)
  /\ (fst (submitFeedback (Some a)) = false -> snd (submitFeedback (Some a)) = "Eingetragen!").
Proof.
  intros a. split; [|split; [|split]].
  - intros ->. reflexivity.
  - intros Hne. pose proof (weightPR_excludes_repPR newWeight newReps prior Hne) as Hx.
    fold a in Hx. unfold prTypes.
    destruct (isWeightPR a), (isVolumePR a), (isRepPR a);
      try (specialize (Hx eq_refl); discriminate);
      (split; [cbn; lia | cbn; intuition discriminate]).
  - unfold submitFeedback, prTypes.
    destruct (isWeightPR a), (isVolumePR a), (isRepPR a); cbn; intuition discriminate.
  - unfold submitFeedback, prTypes.
    destruct (isWeightPR a), (isVolumePR a), (isRepPR a); cbn; intuition discriminate.
Qed.

(** ** Calendar grid *)

Lemma padToWeeks_spec (fuel : nat) :
  forall days : list Z,
  (7 - length days mod 7 <= fuel)%nat \/ (length days mod 7 = 0)%nat ->
  exists extra : list Z,
    padToWeeks fuel days = (days ++ extra)%list
    /\ ((length days + length extra) mod 7 = 0)%nat
    /\ (length extra = if (length days mod 7 =? 0)%nat then 0 else 7 - length days mod 7)%nat
    /\ forall i t l, extra !! i = Some t -> last days = Some l ->
         t = (l + 86400000 * (Z.of_nat i + 1))%Z.
Proof.
  induction fuel as [|fuel IH]; intros days H.
  - assert (Hm : (length days mod 7 = 0)%nat).
    { destruct H as [H|H]; [|exact H].
      pose proof (Nat.mod_upper_bound (length days) 7). lia. }
    exists []. cbn [padToWeeks]. rewrite app_nil_r, Nat.add_0_r, Hm. cbn.
    repeat split; try reflexivity. intros i t l Hi. now rewrite lookup_nil in Hi.
  - cbn [padToWeeks]. destruct (length days mod 7 =? 0)%nat eqn:E.
    + apply Nat.eqb_eq in E. exists []. rewrite app_nil_r, Nat.add_0_r.
      repeat split; try assumption; try reflexivity.
      intros i t l Hi. now rewrite lookup_nil in Hi.
    + apply Nat.eqb_neq in E.
      destruct (last days) as [t0|] eqn:L.
      2:{ apply last_None in L. subst days. cbn in E. congruence. }
      pose proof (Nat.mod_upper_bound (length days) 7 ltac:(lia)) as Hub.
      assert (Hlen : length (days ++ [(t0 + 86400000)%Z]) = S (length days))
        by (rewrite length_app; cbn; lia).
      assert (Hmod : (length (days ++ [(t0 + 86400000)%Z]) mod 7
                     = if (length days mod 7 =? 6) then 0 else S (length days mod 7))%nat).
      { rewrite Hlen. pose proof (Nat.div_mod_eq (length days) 7) as D.
        destruct (length days mod 7 =? 6)%nat eqn:E6.
        - apply Nat.eqb_eq in E6.
          replace (S (length days)) with (0 + (length days / 7 + 1) * 7)%nat by lia.
          now rewrite Nat.Div0.mod_add.
        - apply Nat.eqb_neq in E6.
          replace (S (length days)) with (S (length days mod 7) + (length days / 7) * 7)%nat by lia.
          rewrite Nat.Div0.mod_add. apply Nat.mod_small. lia. }
      destruct (IH (days ++ [(t0 + 86400000)%Z])%list) as (extra & Hp & Hm & Hl & Hc).
      { rewrite Hmod. destruct (length days mod 7 =? 6)%nat eqn:E6; [now right|].
        apply Nat.eqb_neq in E6. left. destruct H as [H|H]; lia. }
      exists ((t0 + 86400000)%Z :: extra). split; [rewrite Hp, <- app_assoc; reflexivity|].
      split; [rewrite Hlen in Hm; cbn [length]; rewrite <- Hm; f_equal; lia|].
      split.
      * cbn [length]. rewrite Hl, Hmod.
        destruct (length days mod 7 =? 6)%nat eqn:E6.
        -- apply Nat.eqb_eq in E6. rewrite E6. reflexivity.
        -- apply Nat.eqb_neq in E6. cbn [Nat.eqb]. lia.
      * intros i t l Hi Hl'. injection Hl' as <-.
        destruct i as [|i]; cbn in Hi.
        -- injection Hi as <-. lia.
        -- rewrite (Hc i t (t0 + 86400000)%Z Hi) by apply last_snoc. lia.
Qed.

(** X19. Six iterations suffice for the padding loop of the calendar: it
    ends with a number of days that is a multiple of 7, having appended the
    fewest days that make it so (none to a grid of full weeks), each one day
    of 86400000 ms after the one before; more fuel changes nothing. *)
Theorem padToWeeks_full_weeks (fuel : nat) (days : list Z) :
  (6 <= fuel)%nat ->
  exists extra : list Z,
    padToWeeks fuel days = (days ++ extra)%list
    /\ padToWeeks fuel days = padToWeeks 6 days
    /\ (length (padToWeeks fuel days) mod 7 = 0)%nat
    /\ (length extra = if (length days mod 7 =? 0)%nat then 0 else 7 - length days mod 7)%nat
    /\ forall i t l, extra !! i = Some t -> last days = Some l ->
         t = (l + 86400000 * (Z.of_nat i + 1))%Z.
Proof.
  intros Hf.
  assert (H6 : forall f, (6 <= f)%nat ->
             (7 - length days mod 7 <= f)%nat \/ (length days mod 7 = 0)%nat).
  { intros f Hf6. destruct (length days mod 7)%nat eqn:M; [now right | left; lia]. }
  destruct (padToWeeks_spec fuel days (H6 fuel Hf)) as (extra & Hp & Hm & Hl & Hc).
  destruct (padToWeeks_spec 6 days (H6 6%nat (le_n 6))) as (extra6 & Hp6 & _ & Hl6 & Hc6).
  exists extra. split; [exact Hp|]. split; [|split; [|split; [exact Hl | exact Hc]]].
  - rewrite Hp, Hp6. f_equal. apply list_eq. intros i.
    destruct (extra !! i) as [t|] eqn:Ei, (extra6 !! i) as [t6|] eqn:Ei6; try reflexivity.
    + destruct (last days) as [l|] eqn:L.
      * now rewrite (Hc i t l Ei eq_refl), (Hc6 i t6 l Ei6 eq_refl).
      * apply last_None in L. subst days. cbn in Hl. subst. destruct extra; [|discriminate].
        now rewrite lookup_nil in Ei.
    + apply lookup_lt_Some in Ei. apply lookup_ge_None in Ei6. lia.
    + apply lookup_ge_None in Ei. apply lookup_lt_Some in Ei6. lia.
  - rewrite Hp, length_app. exact Hm.
Qed.

Lemma padToWeeks_full_weeks_witness :
  padToWeeks 10 [0; 86400000; 172800000; 259200000; 345600000]%Z
  = [0; 86400000; 172800000; 259200000; 345600000; 432000000; 518400000]%Z.
Proof.
  destruct (padToWeeks_full_weeks 10 [0; 86400000; 172800000; 259200000; 345600000]%Z)
    as (extra & _ & -> & _); [lia|]. reflexivity.
Defined.

(** ** Feed of the third dashboard *)

Lemma filter_orb_disjoint {A : Type} (p q : A -> bool) (l : list A) :
  (forall x, In x l -> p x = true -> q x = false) ->
  Permutation (List.filter p l ++ List.filter q l)%list (List.filter (fun x => p x || q x) l).
Proof.
  induction l as [|x l IH]; intros Hd; [constructor|].
  assert (IH' := IH (fun y Hy => Hd y (or_intror Hy))).
  cbn [List.filter]. destruct (p x) eqn:P.
  - rewrite (Hd x (or_introl eq_refl) P). cbn. now constructor.
  - destruct (q x) eqn:Q; cbn; [|exact IH'].
    etransitivity; [symmetry; apply Permutation_middle|]. now constructor.
Qed.

Lemma map_const_length {A B C : Type} (c : C) (l : list A) :
  forall l' : list B, length l = length l' -> map (fun _ => c) l = map (fun _ => c) l'.
Proof.
  induction l as [|x l IH]; intros [|y l'] H; try discriminate; [reflexivity|].
  cbn. f_equal. apply IH. now injection H.
Qed.

Section Feed.

Variable newDate : string -> option JsDate.

Lemma allPRs_entries (prEintraege : list PrEintraege) (uebungen : list Uebungen) :
  List.NoDup (map record_id uebungen) ->
  Permutation (map (fun r => fst (fst r)) (allPRs (map (withPRs newDate prEintraege) uebungen)))
              (List.filter (resolvesToAny uebungen) prEintraege).
Proof.
  induction uebungen as [|u us IH]; intros ND.
  - cbn. induction prEintraege as [|e es IHe]; [constructor | exact IHe].
  - cbn [map] in ND. apply List.NoDup_cons_iff in ND. destruct ND as [Hu ND].
    unfold allPRs. cbn [map flat_map]. rewrite map_app, map_map. cbn [fst].
    rewrite map_id. fold (allPRs (map (withPRs newDate prEintraege) us)).
    etransitivity; [apply Permutation_app; [apply sortBy_Permutation | apply (IH ND)]|].
    unfold resolvesToAny at 2. cbn [existsb].
    apply (filter_orb_disjoint (refersTo u) (resolvesToAny us)).
    intros e _ R. destruct (resolvesToAny us e) eqn:A; [exfalso | reflexivity].
    apply existsb_exists in A. destruct A as (u' & Hu' & R').
    unfold refersTo in R, R'.
    destruct (extractRecordId (exercise_id (pr_fields e))) as [i|]; [|discriminate].
    apply String.eqb_eq in R, R'. apply Hu. rewrite <- R, R'. now apply in_map.
Qed.

(** X20. With exercises of distinct ids, the feed of the third dashboard
    shows every fetched entry whose reference resolves to a listed exercise
    exactly once and no other entry; each row carries the id its reference
    resolves to and that exercise's name (or 'Unbekannt'), and the rows of an
    exercise listed earlier come first. *)
Theorem allPRs_feed (uebungen : list Uebungen) (prEintraege : list PrEintraege) :
  List.NoDup (map record_id uebungen) ->
  let rows := allPRs (exercises (loadData newDate uebungen prEintraege)) in
  Permutation (map (fun r => fst (fst r)) rows) (List.filter (resolvesToAny uebungen) prEintraege)
  /\ (forall pr nm id, In (pr, nm, id) rows ->
        In pr prEintraege
        /\ extractRecordId (exercise_id (pr_fields pr)) = Some id
        /\ exists u, In u uebungen /\ record_id u = id
                     /\ nm = orText (name (fields u)) "Unbekannt")
  /\ (length rows <= length prEintraege)%nat
  /\ map (fun r => snd r) rows
     = flat_map (fun u => map (fun _ => record_id u)
                            (List.filter (refersTo u) prEintraege)) uebungen.
Proof.
  intros ND rows.
  assert (E : rows = allPRs (map (withPRs newDate prEintraege) uebungen)) by reflexivity.
  pose proof (allPRs_entries prEintraege uebungen ND) as P. rewrite <- E in P.
  split; [exact P|]. split; [|split].
  - intros pr nm id Hin. rewrite E in Hin. unfold allPRs in Hin.
    apply in_flat_map in Hin. destruct Hin as (x & Hx & Hr).
    apply in_map_iff in Hx. destruct Hx as (u & <- & Hu).
    apply in_map_iff in Hr. destruct Hr as (pr' & Heq & Hpr).
    cbn [exercise withPRs] in Heq. injection Heq as -> <- <-.
    apply In_prs in Hpr. destruct Hpr as [Hpr Hid].
    split; [exact Hpr|]. split; [exact Hid|]. exists u. auto.
  - apply Permutation_length in P. rewrite length_map in P. rewrite P.
    apply filter_length_le.
  - rewrite E. clear. induction uebungen as [|u us IH]; [reflexivity|].
    unfold allPRs. cbn [map flat_map]. rewrite map_app, map_map. cbn [snd exercise withPRs prs].
    fold (allPRs (map (withPRs newDate prEintraege) us)). rewrite IH. f_equal.
    apply map_const_length, Permutation_length, sortBy_Permutation.
Qed.

End Feed.

Lemma allPRs_feed_witness :
  map (fun r => snd r) (allPRs (exercises (loadData Utc.newDate [exBench; exSquat] fourWeeks)))
  = [idBench; idBench; idBench; idBench; idSquat; idSquat].
Proof.
  destruct (allPRs_feed Utc.newDate [exBench; exSquat] fourWeeks) as (_ & _ & _ & ->).
  - repeat constructor; cbn; intuition discriminate.
  - vm_compute. reflexivity.
Defined.

(** ** Chart of one exercise *)



Section ChartOrder.

Variable newDate : string -> option JsDate.
Variable format : option JsDate -> option string.




End ChartOrder.

(** With a formatter that throws on an invalid date, the chart of the bench
    press is there, oldest entry first; one entry with a date that does not
    parse takes the whole chart away. *)
Example chartData_fourWeeks :
  let fmt := fun d : option JsDate => (fun _ => "dd.MM") <$> d in
  map ChartPoint.fullDate <$> chartData Utc.newDate fmt (prs (withPRs Utc.newDate fourWeeks exBench))
  = Some [Some "2025-02-12"; Some "2025-02-26"; Some "2025-03-12"; Some "2025-03-19"]
  /\ chartData Utc.newDate fmt
       (prs (withPRs Utc.newDate (logged "p0" idBench "gestern" 80 5 :: fourWeeks) exBench))
     = None.
Proof. vm_compute. split; reflexivity. Qed.

(** ** Search *)

Lemma prefix_app_l (a b s : string) :
  String.prefix (a ++ b) s = true -> String.prefix a s = true.
Proof.
  revert s. induction a as [|c a IH]; intros s H; [now destruct s|].
  change (String c a ++ b) with (String c (a ++ b)) in H.
  destruct s as [|d s]; cbn in H |- *; [discriminate|].
  destruct (ascii_dec c d); [now apply IH | discriminate].
Qed.

Lemma includes_app_l (s a b : string) :
  includes s (a ++ b) = true -> includes s a = true.
Proof.
  induction s as [|c s IH]; cbn [includes]; intros H; apply orb_true_iff in H;
    apply orb_true_iff; destruct H as [H|H].
  - left. now apply prefix_app_l in H.
  - discriminate.
  - left. now apply prefix_app_l in H.
  - right. now apply IH.
Qed.

Lemma includes_empty (s : string) : includes s "" = true.
Proof. now destruct s. Qed.

Lemma prefix_refl (s : string) : String.prefix s s = true.
Proof.
  induction s as [|c s IH]; [reflexivity|]. cbn. now destruct (ascii_dec c c).
Qed.

Lemma includes_refl (s : string) : includes s s = true.
Proof. destruct s; cbn [includes]; now rewrite prefix_refl. Qed.

Lemma filter_sublist_impl {A : Type} (p q : A -> bool) (l : list A) :
  (forall x, In x l -> p x = true -> q x = true) ->
  sublist (List.filter p l) (List.filter q l).
Proof.
  induction l as [|x l IH]; intros H; cbn; [constructor|].
  assert (IH' := IH (fun y Hy => H y (or_intror Hy))).
  destruct (p x) eqn:P.
  - rewrite (H x (or_introl eq_refl) P). now constructor.
  - destruct (q x); [now constructor | exact IH'].
Qed.

Section SearchProps.

Variable toLowerCase : string -> string.

(** X22. Typing on narrows the search: when lower-casing the longer query
    gives the lower-cased shorter one followed by the rest, the exercises
    listed for the longer query are among those listed for the shorter one,
    in the same order.  An exercise without a name is never listed; a query
    that lower-cases to the empty text lists every exercise that has a name
    field; and an exercise is listed under its own name. *)
Theorem filteredExercises_narrows (exs : list ExerciseWithPRs) (q r : string) :
  toLowerCase (q ++ r) = toLowerCase q ++ toLowerCase r ->
  sublist (filteredExercises toLowerCase exs (q ++ r)) (filteredExercises toLowerCase exs q)
  /\ sublist (filteredExercises toLowerCase exs q) exs
  /\ (forall x, In x (filteredExercises toLowerCase exs q) ->
        name (fields (exercise x)) <> None)
  /\ (toLowerCase q = "" ->
      filteredExercises toLowerCase exs q
      = List.filter (fun x => bool_decide (name (fields (exercise x)) <> None)) exs)
  /\ (forall x n, In x exs -> name (fields (exercise x)) = Some n ->
        In x (filteredExercises toLowerCase exs n)).
Proof.
  intros Hl. unfold filteredExercises. split; [|split; [|split; [|split]]].
  - apply filter_sublist_impl. intros x _. unfold matchesQuery.
    destruct (name (fields (exercise x))) as [n|]; [|discriminate].
    rewrite Hl. apply includes_app_l.
  - apply filter_sublist.
  - intros x Hx. apply filter_In in Hx. destruct Hx as [_ Hx]. unfold matchesQuery in Hx.
    destruct (name (fields (exercise x))); [discriminate | discriminate].
  - intros Hq. apply filter_ext. intros x. unfold matchesQuery. rewrite Hq.
    destruct (name (fields (exercise x))) as [n|]; [now rewrite includes_empty | reflexivity].
  - intros x n Hx Hn. apply filter_In. split; [exact Hx|]. unfold matchesQuery.
    rewrite Hn. apply includes_refl.
Qed.

End SearchProps.

Lemma filteredExercises_narrows_witness :
  sublist
    (filteredExercises lowerAscii (map (withPRs Utc.newDate fourWeeks) [exBench; exSquat]) "BANKD")
    (filteredExercises lowerAscii (map (withPRs Utc.newDate fourWeeks) [exBench; exSquat]) "BANK").
Proof.
  apply (filteredExercises_narrows lowerAscii
           (map (withPRs Utc.newDate fourWeeks) [exBench; exSquat]) "BANK" "D").
  reflexivity.
Defined.

(** ** Steppers of the form *)

Lemma digitsValue_acc (d : Decimal.uint) :
  forall acc : positive,
  digitsValue 10 (NilEmpty.string_of_uint d) (Z.pos acc) = Z.pos (Pos.of_uint_acc d acc).
Proof.
  induction d as [|d IH|d IH|d IH|d IH|d IH|d IH|d IH|d IH|d IH|d IH]; intros acc;
    [reflexivity|..];
    cbn [NilEmpty.string_of_uint digitsValue Pos.of_uint_acc];
    match goal with
    | |- context [digitValue 10 ?c] =>
        let v := eval vm_compute in (digitValue 10 c) in
        change (digitValue 10 c) with v
    end;
    cbv iota beta; rewrite <- IH; f_equal; lia.
Qed.

Lemma digitsValue_uint (d : Decimal.uint) :
  digitsValue 10 (NilEmpty.string_of_uint d) 0 = Z.of_N (Pos.of_uint d).
Proof.
  induction d as [|d IH|d IH|d IH|d IH|d IH|d IH|d IH|d IH|d IH|d IH];
    [reflexivity|..];
    cbn [NilEmpty.string_of_uint digitsValue Pos.of_uint];
    match goal with
    | |- context [digitValue 10 ?c] =>
        let v := eval vm_compute in (digitValue 10 c) in
        change (digitValue 10 c) with v
    end;
    cbv iota beta; [exact IH|..]; cbn [Z.of_N]; rewrite <- digitsValue_acc; reflexivity.
Qed.

Lemma parseInt_digits (d : Decimal.uint) :
  d <> Decimal.Nil ->
  parseInt (NilEmpty.string_of_uint d) = Some (1 * digitsValue 10 (NilEmpty.string_of_uint d) 0)%Z
  /\ parseInt (String "-" (NilEmpty.string_of_uint d))
     = Some (-1 * digitsValue 10 (NilEmpty.string_of_uint d) 0)%Z.
Proof.
  intros Hd. destruct d as [|d|d|d|d|d|d|d|d|d|d]; [congruence|..];
    destruct d; split; reflexivity.
Qed.

Lemma string_of_uint_nonnil (d : Decimal.uint) :
  d <> Decimal.Nil -> NilZero.string_of_uint d = NilEmpty.string_of_uint d.
Proof. destruct d; [congruence|..]; reflexivity. Qed.

Lemma parseInt_numberToString (n : Z) : parseInt (numberToString (Some n)) = Some n.
Proof.
  destruct n as [|p|p]; [reflexivity|..]; cbn [numberToString Z.to_int NilZero.string_of_int];
    pose proof (DecimalPos.Unsigned.to_uint_nonnil p) as Hn;
    rewrite (string_of_uint_nonnil _ Hn).
  - rewrite (proj1 (parseInt_digits _ Hn)), digitsValue_uint, DecimalPos.Unsigned.of_to.
    reflexivity.
  - rewrite (proj2 (parseInt_digits _ Hn)), digitsValue_uint, DecimalPos.Unsigned.of_to.
    reflexivity.
Qed.

Lemma numberToString_nonempty (n : Z) :
  orString (numberToString (Some n)) "0" = numberToString (Some n).
Proof.
  destruct n as [|p|p]; [reflexivity| |reflexivity].
  cbn [numberToString Z.to_int NilZero.string_of_int].
  pose proof (DecimalPos.Unsigned.to_uint_nonnil p) as Hn.
  rewrite (string_of_uint_nonnil _ Hn). destruct (Pos.to_uint p); [congruence|..]; reflexivity.
Qed.

(** X23. Whatever text the field holds, if [parseInt] reads an integer [k]
    from it ([0] from the empty field), [incrementValue] writes the decimal
    text of [max(1, k + 1)] and [decrementValue] that of [max(1, k - 1)];
    [parseInt] reads these texts back as the same numbers, so that a
    decrement undoes an increment from [k >= 1], and the steppers never
    leave a number below 1 in the field.  The integers are those a [number]
    holds exactly. *)
Theorem steppers_canonical (value : string) (k : Z) :
  parseInt (orString value "0") = Some k ->
  (- 9007199254740991 <= k < 9007199254740991)%Z ->
  incrementValue value = numberToString (Some (Z.max 1 (k + 1)))
  /\ decrementValue value = numberToString (Some (Z.max 1 (k - 1)))
  /\ parseInt (incrementValue value) = Some (Z.max 1 (k + 1))
  /\ parseInt (decrementValue value) = Some (Z.max 1 (k - 1))
  /\ decrementValue (incrementValue value) = numberToString (Some (Z.max 1 k))
  /\ incrementValue (decrementValue value) = numberToString (Some (Z.max 2 k)).
Proof.
  intros Hk _.
  assert (Hup : incrementValue value = numberToString (Some (Z.max 1 (k + 1))))
    by (unfold incrementValue; now rewrite Hk).
  assert (Hdn : decrementValue value = numberToString (Some (Z.max 1 (k - 1))))
    by (unfold decrementValue; now rewrite Hk).
  rewrite Hup, Hdn. repeat split; try apply parseInt_numberToString.
  - unfold decrementValue. rewrite numberToString_nonempty, parseInt_numberToString.
    cbn [fmap option_fmap option_map]. do 2 f_equal. lia.
  - unfold incrementValue. rewrite numberToString_nonempty, parseInt_numberToString.
    cbn [fmap option_fmap option_map]. do 2 f_equal. lia.
Qed.

Lemma steppers_canonical_witness :
  incrementValue " 12 kg" = "13" /\ decrementValue (incrementValue " 12 kg") = "12".
Proof.
  destruct (steppers_canonical " 12 kg" 12) as (-> & _ & _ & _ & -> & _);
    [reflexivity | lia | split; reflexivity].
Defined.

(** The empty field steps to 1 either way; a text without a number gives
    ['NaN'], which stays. *)
Example steppers_edges :
  incrementValue "" = "1" /\ decrementValue "" = "1"
  /\ incrementValue "-5" = "1" /\ decrementValue "2.9" = "1"
  /\ incrementValue "abc" = "NaN" /\ incrementValue "NaN" = "NaN"
  /\ incrementValue "0x1f" = "32".
Proof. vm_compute. repeat split; reflexivity. Qed.
